(** * OBJModel: mesh loading and index reordering

    A shallow embedding of [part1/src/OBJModel.cpp] (class [OBJModel] of
    [part1/include/OBJModel.hpp]) together with the way [part1/src/main.cpp]
    drives it, and the verification of the properties the specification
    states about it.

    Conventions of the embedding:
    - [std::vector<T>] is [list T]; [push_back] appends at the end;
      [operator[]] is an unchecked read whose out-of-range case is undefined
      behaviour ([Ub OutOfBoundsRead]); [at] throws [out_of_range].
    - [unsigned int] / [GLuint] is a [Z] in [[0, 2^32)], conversions wrap;
      [int] is a [Z], narrowing conversions wrap into [[-2^31, 2^31)], and
      arithmetic on [int] whose result does not fit is undefined behaviour
      ([Ub SignedOverflow]).
    - [float] arithmetic is not interpreted: the scalar type, its addition
      and the conversion from [int] are operations of the class [FloatOps].
    - a method is a function from the state before to a [result]: the state
      after a normal return, the state at the point where an exception
      leaves the method, or undefined behaviour. *)

From Stdlib Require Import Ascii String.
From Stdlib Require DecimalString DecimalN.
From stdpp Require Import base numbers option list strings.

Local Open Scope Z_scope.

(** ** Machine integers *)

Definition UINT_MODULUS : Z := 2 ^ 32.
Definition INT_MIN : Z := - 2 ^ 31.
Definition INT_MAX : Z := 2 ^ 31 - 1.

(** Conversion to [unsigned int] ([GLuint]). *)
Definition to_GLuint (n : Z) : Z := n mod UINT_MODULUS.

(** Narrowing conversion to [int]. *)
Definition to_int (n : Z) : Z := (n - INT_MIN) mod UINT_MODULUS + INT_MIN.

(** ** Outcomes *)

(** The undefined behaviours the translation unit can run into. *)
Inductive ub : Type :=
| OutOfBoundsRead      (* [v[i]] with [i >= v.size()] *)
| IndeterminateRead    (* use of a local that [sscanf] did not assign *)
| ConversionOverflow   (* [%d] on a number that does not fit an [int] *)
| SignedOverflow.      (* [++i] or [-i] on an [int] whose result does not fit *)

(** The exceptions the translation unit can raise. *)
Inductive exn : Type :=
| out_of_range.        (* [std::out_of_range], from [vector::at] *)

(** A computation that yields a value or hits undefined behaviour. *)
Inductive comp (A : Type) : Type :=
| Ok (a : A)
| Ub (u : ub).
Arguments Ok {A} a.
Arguments Ub {A} u.

#[global] Instance comp_ret : MRet comp := fun A a => Ok a.
#[global] Instance comp_bind : MBind comp := fun A B f c =>
  match c with
  | Ok a => f a
  | Ub u => Ub u
  end.

(** What a call of a method does to the object it is called on. *)
Inductive result (S : Type) : Type :=
| Ret (s : S)               (* returns; the state is [s] *)
| Throw (e : exn) (s : S)   (* [e] propagates to the caller; the state is [s] *)
| Undef (u : ub).           (* undefined behaviour *)
Arguments Ret {S} s.
Arguments Throw {S} e s.
Arguments Undef {S} u.

(** The state a call leaves behind, when there is one. *)
Definition state_after {S : Type} (r : result S) : option S :=
  match r with
  | Ret s | Throw _ s => Some s
  | Undef _ => None
  end.

(** An error is surfaced to the caller. *)
Definition surfaces_error {S : Type} (r : result S) : Prop :=
  match r with
  | Throw _ _ => True
  | _ => False
  end.

(** ** [std::vector] accesses *)

(** [v[i]], [i] a [size_t]. *)
Definition subscript {A : Type} (v : list A) (i : Z) : comp A :=
  match v !! Z.to_nat i with
  | Some a => Ok a
  | None => Ub OutOfBoundsRead
  end.

(** ** [sscanf(s, "%d/%d/%d", &a, &b, &c)] *)

Definition is_space (c : ascii) : bool :=
  let n := nat_of_ascii c in
  ((n =? 32) || ((9 <=? n) && (n <=? 13)))%nat.

Definition digit_of (c : ascii) : option Z :=
  let n := nat_of_ascii c in
  if ((48 <=? n) && (n <=? 57))%nat then Some (Z.of_nat n - 48) else None.

Fixpoint skip_space (s : list ascii) : list ascii :=
  match s with
  | c :: r => if is_space c then skip_space r else s
  | [] => []
  end.

(** The longest run of digits at the head of [s], read in base ten after
    [acc]. *)
Fixpoint scan_digits (acc : Z) (s : list ascii) : Z * list ascii :=
  match s with
  | c :: r =>
      match digit_of c with
      | Some k => scan_digits (10 * acc + k) r
      | None => (acc, s)
      end
  | [] => (acc, [])
  end.

Definition is_minus (c : ascii) : bool := (nat_of_ascii c =? 45)%nat.
Definition is_plus (c : ascii) : bool := (nat_of_ascii c =? 43)%nat.
Definition is_slash (c : ascii) : bool := (nat_of_ascii c =? 47)%nat.
Definition is_backslash (c : ascii) : bool := (nat_of_ascii c =? 92)%nat.

(** One [%d] directive: white space, an optional sign, at least one digit.
    [None] is a matching failure. *)
Definition scan_d (s : list ascii) : option (Z * list ascii) :=
  let s := skip_space s in
  let '(neg, s) :=
    match s with
    | c :: r => if is_minus c then (true, r) else if is_plus c then (false, r) else (false, s)
    | [] => (false, [])
    end in
  match s with
  | c :: _ =>
      match digit_of c with
      | Some _ => let '(n, r) := scan_digits 0 s in Some (if neg then - n else n, r)
      | None => None
      end
  | [] => None
  end.

(** The literal [/] of the format. *)
Definition scan_slash (s : list ascii) : option (list ascii) :=
  match s with
  | c :: r => if is_slash c then Some r else None
  | [] => None
  end.

(** The [int] that [%d] read, as stored through a pointer to
    [unsigned int]. *)
Definition store_d (n : Z) : comp Z :=
  if (INT_MIN <=? n) && (n <=? INT_MAX) then Ok (to_GLuint n) else Ub ConversionOverflow.

(** The three outputs of one [sscanf]; [None] is a variable left as it was,
    which here is uninitialised. *)
Definition corner : Type := option Z * option Z * option Z.

Definition sscanf_ddd (s : string) : comp corner :=
  match scan_d (list_ascii_of_string s) with
  | None => Ok (None, None, None)
  | Some (a, s) =>
      a ← store_d a;
      match scan_slash s with
      | None => Ok (Some a, None, None)
      | Some s =>
          match scan_d s with
          | None => Ok (Some a, None, None)
          | Some (b, s) =>
              b ← store_d b;
              match scan_slash s with
              | None => Ok (Some a, Some b, None)
              | Some s =>
                  match scan_d s with
                  | None => Ok (Some a, Some b, None)
                  | Some (c, _) =>
                      c ← store_d c;
                      Ok (Some a, Some b, Some c)
                  end
              end
          end
      end
  end.

(** Reading a local [unsigned int]. *)
Definition read_local (o : option Z) : comp Z :=
  match o with
  | Some n => Ok n
  | None => Ub IndeterminateRead
  end.

(** ** Strings: [s.substr(0, s.find_last_of("/\\") + 1)] *)

Definition is_separator (c : ascii) : bool := is_slash c || is_backslash c.

(** [find_last_of] scanning from position [pos], [found] being the last
    match so far; [None] is [npos]. *)
Fixpoint find_last_of_from (s : string) (pos : nat) (found : option nat) : option nat :=
  match s with
  | EmptyString => found
  | String c r => find_last_of_from r (S pos) (if is_separator c then Some pos else found)
  end.

(** [npos + 1] is [0] in [size_t]. *)
Definition directory_of (path : string) : string :=
  let n := match find_last_of_from path 0 None with
           | Some p => (p + 1)%nat
           | None => 0%nat
           end in
  substring 0 n path.

(** ** The console *)

Inductive out_item : Type :=
| OStr (s : string)
| ONum (n : Z)
| OEndl.

(** ** External collaborators *)

(** [float] and the two operations the translation unit applies to it. *)
Class FloatOps : Type := {
  float : Type;
  fadd : float → float → float;
  float_of_int : Z → float;
}.

(** [Texture.hpp]: an opaque handle and its loader. *)
Class TextureLib : Type := {
  Texture : Type;
  LoadTexture : string → Texture → Texture;
}.

(** Modelled from the spec: [forsyth.h], which defines
    [ForsythVertexIndexType] and [forsythReorderIndices], is not among the
    sources. An instance stands for the library as it behaves in one run
    of the program: [forsythReorderIndices out ind nTriangles nVertices]
    is the content of the caller's buffer [out] after the call. Nothing
    is assumed of it but that the call, which receives a pointer into the
    buffer, cannot change its size. What section 4.3 of the specification
    asks of the content is [Forsyth.optimize_output] below; two runs are
    two instances. *)
Class ForsythLib : Type := {
  to_ForsythVertexIndexType : Z → Z;
  forsythReorderIndices : list Z → list Z → Z → Z → list Z;
  forsyth_fills_buffer : ∀ out ind nTriangles nVertices,
    length (forsythReorderIndices out ind nTriangles nVertices) = length out;
}.

(** ** The reordering of section 4.3 *)

Module Forsyth.

(** Modelled from the spec: the two things section 4.3 leaves to the
    implementation, the score curve ("a tunable piecewise function" of
    the cache position of a vertex, [None] when it is absent, and of its
    remaining valence) and the size of the cache ("typical size 32"). *)
Record tuning : Type := {
  vertex_score : option nat → nat → Z;
  cache_size : nat;
}.

Section Algorithm.

Variable p : tuning.
Variable triangles : list Z.

(** Modelled from the spec: a triangle list is "an ordered sequence of
    unsigned indices", "each consecutive triple names one triangle". *)
Definition triangle_count : nat := length triangles / 3.

Definition corners (t : nat) : list Z := take 3 (drop (3 * t) triangles).

(** Modelled from the spec: the state of the greedy loop of section 4.3:
    the cache, head first; the triangles emitted so far, in order; and the
    score kept for each triangle. *)
Record state : Type := {
  cache : list Z;
  emitted : list nat;
  scores : list Z;
}.

(** A "not-yet-emitted triangle". *)
Definition is_pending (s : state) (t : nat) : bool :=
  bool_decide (t < triangle_count)%nat && bool_decide (t ∉ emitted s).

(** Modelled from the spec: the "remaining valence (count of
    not-yet-emitted triangles referencing it)" of a vertex. *)
Definition valence (done : list nat) (v : Z) : nat :=
  length (filter (λ t, (t ∉ done) ∧ (v ∈ corners t)) (seq 0 triangle_count)).

(** Modelled from the spec: the "current cache position" of a vertex,
    [None] for the spec's -1. *)
Definition cache_position (c : list Z) (v : Z) : option nat :=
  fst <$> list_find (λ u, u = v) c.

(** Modelled from the spec: "a score = sum of per-vertex scores". *)
Definition triangle_score (c : list Z) (done : list nat) (t : nat) : Z :=
  foldr Z.add 0
    ((λ v, vertex_score p (cache_position c v) (valence done v)) <$> corners t).

(** A triangle "touching the cache's resident vertex set". *)
Definition touches (c : list Z) (t : nat) : bool :=
  bool_decide (Exists (λ v, v ∈ c) (corners t)).

Definition initial : state :=
  {| cache := []; emitted := [];
     scores := triangle_score [] [] <$> seq 0 triangle_count |}.

(** The score kept for triangle [t]. *)
Definition score (s : state) (t : nat) : Z := default 0 (scores s !! t).

(** Modelled from the spec: "on emission, push its 3 vertices to the
    cache head (evicting from the tail past the cache size), decrement
    valence for all three vertices, and recompute scores only for
    triangles touching the cache's resident vertex set". A vertex that
    is resident already moves to the head. *)
Definition emit (s : state) (t : nat) : state :=
  let c := take (cache_size p) (corners t ++ filter (λ v, v ∉ corners t) (cache s)) in
  let done := emitted s ++ [t] in
  {| cache := c; emitted := done;
     scores := (λ t', if touches c t' then triangle_score c done t' else score s t')
                 <$> seq 0 triangle_count |}.

(** Modelled from the spec: step 3, a "highest-scoring not-yet-emitted
    triangle". *)
Definition highest (s : state) (t : nat) : Prop :=
  is_pending s t = true ∧
  ∀ t', is_pending s t' = true → score s t' ≤ score s t.

(** Modelled from the spec: the triangle that is emitted: step 3 with
    step 4, "ties broken by input order". *)
Definition next (s : state) (t : nat) : Prop :=
  highest s t ∧ ∀ t', highest s t' → (t ≤ t')%nat.

(** Modelled from the spec: "repeatedly emit": the index sequences that
    the loop can produce from a state on. *)
Inductive emits : state → list Z → Prop :=
| emits_done s : (∀ t, is_pending s t = false) → emits s []
| emits_next s t out : next s t → emits (emit s t) out → emits s (corners t ++ out).

(** The same loop as a program: a scan for the first triangle of the
    highest score, and as many emissions as there are triangles. *)
Definition better (s : state) (best : option nat) (t : nat) : option nat :=
  match best with
  | Some b => if score s b <? score s t then Some t else Some b
  | None => Some t
  end.

Fixpoint select_from (s : state) (t n : nat) (best : option nat) : option nat :=
  match n with
  | O => best
  | S n => select_from s (S t) n (if is_pending s t then better s best t else best)
  end.

Definition select (s : state) : option nat := select_from s 0 triangle_count None.

(** What the scan has found after the triangles below [bound]: the first
    of the pending triangles with the highest score among them. *)
Definition first_best (s : state) (bound : nat) (best : option nat) : Prop :=
  match best with
  | Some b =>
      (b < bound)%nat ∧ is_pending s b = true ∧
      (∀ t', (t' < bound)%nat → is_pending s t' = true → score s t' ≤ score s b) ∧
      (∀ t', (t' < bound)%nat → is_pending s t' = true → score s t' = score s b →
             (b ≤ t')%nat)
  | None => ∀ t', (t' < bound)%nat → is_pending s t' = false
  end.

Fixpoint run (fuel : nat) (s : state) : list Z :=
  match fuel with
  | O => []
  | S fuel =>
      match select s with
      | Some t => corners t ++ run fuel (emit s t)
      | None => []
      end
  end.

Definition reorder : list Z := run triangle_count initial.

End Algorithm.

(** Modelled from the spec: the contract
    [optimize(triangles, vertexCount) -> list<Index>] of section 4.3, for
    a triangle list that keeps the invariant [indices[i] < vertices.length]
    of section 3: [out] is an output of the greedy loop. *)
Definition optimize_output (p : tuning) (triangles : list Z) (vertexCount : Z)
    (out : list Z) : Prop :=
  Forall (λ v, 0 ≤ v < vertexCount) triangles ∧
  emits p triangles (initial p triangles) out.

End Forsyth.

Section OBJModel.
Context `{FO : FloatOps, TL : TextureLib, FL : ForsythLib}.

(** ** Data model *)

Record vec2 : Type := Vec2 { v2_x : float; v2_y : float }.
Record vec3 : Type := Vec3 { v3_x : float; v3_y : float; v3_z : float }.

(** [glm::vec3(x, y, z)] on three [int]s. *)
Definition vec3_of_ints (x y z : Z) : vec3 :=
  Vec3 (float_of_int x) (float_of_int y) (float_of_int z).

(** [a + b] on [glm::vec3]. *)
Definition vec3_add (a b : vec3) : vec3 :=
  Vec3 (fadd (v3_x a) (v3_x b)) (fadd (v3_y a) (v3_y b)) (fadd (v3_z a) (v3_z b)).

Record Vertex : Type := {
  position : vec3;
  texCoords : vec2;
  normal : vec3;
}.

Record Material : Type := {
  ns : float;
  ka : float * float * float;
  kd : float * float * float;
  ks : float * float * float;
  ke : float * float * float;
  ni : float;
  d : float;
  illum : Z;
  map_kd : Texture;
  map_bump : Texture;
  map_ks : Texture;
}.

(** The members of [OBJModel]. [gl_buffers] is what [setupBuffers] last
    handed to the vertex and element buffers; [texturesLoaded] is never
    touched by the translation unit and is left out. *)
Record OBJModel : Type := {
  vertices : list Vertex;
  indices : list Z;
  oriIndices : list Z;
  optiIndices : list Z;
  material : Material;
  gl_buffers : option (list Vertex * list Z);
}.

(** The global [objModel] of main.cpp and the two streams it writes. *)
Record World : Type := {
  objModel : OBJModel;
  cout : list out_item;
  cerr : list out_item;
}.

Definition with_objModel (m : OBJModel) (w : World) : World :=
  {| objModel := m; cout := cout w; cerr := cerr w |}.
Definition print_cout (items : list out_item) (w : World) : World :=
  {| objModel := objModel w; cout := cout w ++ items; cerr := cerr w |}.
Definition print_cerr (items : list out_item) (w : World) : World :=
  {| objModel := objModel w; cout := cout w; cerr := cerr w ++ items |}.

Definition with_indices (l : list Z) (m : OBJModel) : OBJModel :=
  {| vertices := vertices m; indices := l; oriIndices := oriIndices m;
     optiIndices := optiIndices m; material := material m; gl_buffers := gl_buffers m |}.
Definition with_oriIndices (l : list Z) (m : OBJModel) : OBJModel :=
  {| vertices := vertices m; indices := indices m; oriIndices := l;
     optiIndices := optiIndices m; material := material m; gl_buffers := gl_buffers m |}.
Definition with_optiIndices (l : list Z) (m : OBJModel) : OBJModel :=
  {| vertices := vertices m; indices := indices m; oriIndices := oriIndices m;
     optiIndices := l; material := material m; gl_buffers := gl_buffers m |}.
Definition with_material (mat : Material) (m : OBJModel) : OBJModel :=
  {| vertices := vertices m; indices := indices m; oriIndices := oriIndices m;
     optiIndices := optiIndices m; material := mat; gl_buffers := gl_buffers m |}.

(** [OBJModel::OBJModel()]: the vectors are empty; the scalars of
    [material] are whatever the storage holds, here [mat]. *)
Definition OBJModel_default (mat : Material) : OBJModel :=
  {| vertices := []; indices := []; oriIndices := []; optiIndices := [];
     material := mat; gl_buffers := None |}.

Definition World_default (mat : Material) : World :=
  {| objModel := OBJModel_default mat;
     cout := [OStr "OBJModel default constructor: Nothing loaded yet"; OEndl];
     cerr := [] |}.

(** ** Files *)

(** A line of an .obj file after [ss >> prefix] and the extractions of its
    branch; the three corner groups of a face are kept as text, for
    [sscanf]. *)
Inductive obj_line : Type :=
| L_mtllib (mtlFileName : string)
| L_usemtl (matName : string)
| L_v (vertex : vec3)
| L_vt (texCoord : vec2)
| L_vn (normal : vec3)
| L_f (vertex1 vertex2 vertex3 : string)
| L_other.

(** A line of a .mtl file, likewise. *)
Inductive mtl_line : Type :=
| M_Ns (v : float)
| M_Ka (r g b : float)
| M_Kd (r g b : float)
| M_Ks (r g b : float)
| M_Ni (v : float)
| M_d (v : float)
| M_illum (v : Z)
| M_map_Kd (textureFile : string)
| M_map_Bump (textureFile : string)
| M_map_Ks (textureFile : string)
| M_other.

(** What [std::ifstream] finds at a path; [None] is a file that cannot be
    opened. *)
Record FileSystem : Type := {
  obj_files : string → option (list obj_line);
  mtl_files : string → option (list mtl_line);
}.

(** ** [OBJModel::setupBuffers] *)

Definition setupBuffers (m : OBJModel) : OBJModel :=
  {| vertices := vertices m; indices := indices m; oriIndices := oriIndices m;
     optiIndices := optiIndices m; material := material m;
     gl_buffers := Some (vertices m, indices m) |}.

(** ** [OBJModel::LoadMaterials] *)

Definition load_material_line (directory : string) (line : mtl_line) (mat : Material) : Material :=
  let 'Build_Material ns0 ka0 kd0 ks0 ke0 ni0 d0 illum0 map_kd0 map_bump0 map_ks0 := mat in
  match line with
  | M_Ns v => Build_Material v ka0 kd0 ks0 ke0 ni0 d0 illum0 map_kd0 map_bump0 map_ks0
  | M_Ka r g b => Build_Material ns0 (r, g, b) kd0 ks0 ke0 ni0 d0 illum0 map_kd0 map_bump0 map_ks0
  | M_Kd r g b => Build_Material ns0 ka0 (r, g, b) ks0 ke0 ni0 d0 illum0 map_kd0 map_bump0 map_ks0
  | M_Ks r g b => Build_Material ns0 ka0 kd0 (r, g, b) ke0 ni0 d0 illum0 map_kd0 map_bump0 map_ks0
  | M_Ni v => Build_Material ns0 ka0 kd0 ks0 ke0 v d0 illum0 map_kd0 map_bump0 map_ks0
  | M_d v => Build_Material ns0 ka0 kd0 ks0 ke0 ni0 v illum0 map_kd0 map_bump0 map_ks0
  | M_illum v => Build_Material ns0 ka0 kd0 ks0 ke0 ni0 d0 v map_kd0 map_bump0 map_ks0
  | M_map_Kd f =>
      Build_Material ns0 ka0 kd0 ks0 ke0 ni0 d0 illum0
        (LoadTexture (String.append directory f) map_kd0) map_bump0 map_ks0
  | M_map_Bump f =>
      Build_Material ns0 ka0 kd0 ks0 ke0 ni0 d0 illum0
        map_kd0 (LoadTexture (String.append directory f) map_bump0) map_ks0
  | M_map_Ks f =>
      Build_Material ns0 ka0 kd0 ks0 ke0 ni0 d0 illum0
        map_kd0 map_bump0 (LoadTexture (String.append directory f) map_ks0)
  | M_other => mat
  end.

Definition LoadMaterials (fs : FileSystem) (mtlFilePath : string) (w : World) : World :=
  match mtl_files fs mtlFilePath with
  | None => print_cerr [OStr "Could not open MTL file at "; OStr mtlFilePath; OEndl] w
  | Some lines =>
      let directory := directory_of mtlFilePath in
      let mat := foldl (λ mat line, load_material_line directory line mat)
                       (material (objModel w)) lines in
      with_objModel (with_material mat (objModel w)) w
  end.

(** ** Loops *)

(** A loop whose body can hit undefined behaviour. *)
Fixpoint for_each {A S : Type} (body : A → S → comp S) (l : list A) (s : S) : comp S :=
  match l with
  | [] => Ok s
  | a :: l => s ← body a s; for_each body l s
  end.

(** [-n] on an [int]. *)
Definition int_neg (n : Z) : comp Z :=
  if n =? INT_MIN then Ub SignedOverflow else Ok (- n).

(** [for (int i = lo; i <= hi; ++i) body], [lo] and [hi] being [int]s.
    The body runs for the values from [lo] to [hi]; the increment after
    the last of them gives [hi + 1], which does not fit an [int] when [hi]
    is [INT_MAX]: the test [i <= hi] can then never fail, and the loop ends
    in the overflow. *)
Definition for_int {S : Type} (lo hi : Z) (body : Z → S → comp S) (s : S) : comp S :=
  if hi <? lo then Ok s
  else
    s ← for_each body (seqZ lo (hi - lo + 1)) s;
    if hi =? INT_MAX then Ub SignedOverflow else Ok s.

(** ** [OBJModel::generateOffsetVectors] *)

(** [maxOffset] is an [int]. A [std::vector] is a list: the storage it
    would take is not modelled. *)
Definition generateOffsetVectors (maxOffset : Z) : comp (list vec3) :=
  x0 ← int_neg maxOffset;
  for_int x0 maxOffset (λ x offsets,
    y0 ← int_neg maxOffset;
    for_int y0 maxOffset (λ y offsets,
      z0 ← int_neg maxOffset;
      for_int z0 maxOffset (λ z offsets,
        Ok (if negb (x =? 0) || negb (y =? 0) || negb (z =? 0)
            then offsets ++ [vec3_of_ints x y z]
            else offsets))
        offsets)
      offsets)
    [].

(** ** [OBJModel::loadModelFromFile] *)

(** The three locals that collect the [v], [vt] and [vn] lines. *)
Record Temps : Type := {
  temp_vertices : list vec3;
  temp_texCoords : list vec2;
  temp_normals : list vec3;
}.

Definition Temps_empty : Temps :=
  {| temp_vertices := []; temp_texCoords := []; temp_normals := [] |}.

(** [temp[idx - 1]] for an [unsigned int idx]. *)
Definition fetch {A : Type} (temp : list A) (idx : option Z) : comp A :=
  i ← read_local idx;
  subscript temp (to_GLuint (i - 1)).

(** The vertex built by the body of the first loop over the corners. *)
Definition corner_vertex (t : Temps) (c : corner) : comp Vertex :=
  let '(vIndex, uvIndex, nIndex) := c in
  p ← fetch (temp_vertices t) vIndex;
  uv ← fetch (temp_texCoords t) uvIndex;
  n ← fetch (temp_normals t) nIndex;
  Ok {| position := p; texCoords := uv; normal := n |}.

(** The vertex built by the body of the loop over the corners under
    [offset]. *)
Definition corner_vertex_offset (t : Temps) (offset : vec3) (c : corner) : comp Vertex :=
  let '(vIndex, uvIndex, nIndex) := c in
  p ← fetch (temp_vertices t) vIndex;
  uv ← fetch (temp_texCoords t) uvIndex;
  n ← fetch (temp_normals t) nIndex;
  Ok {| position := vec3_add p offset; texCoords := uv; normal := n |}.

(** [vertices.push_back(vertex); indices.push_back(vertices.size() - 1);] *)
Definition push_vertex (vertex : Vertex) (m : OBJModel) : OBJModel :=
  let vs := vertices m ++ [vertex] in
  {| vertices := vs;
     indices := indices m ++ [to_GLuint (Z.of_nat (length vs) - 1)];
     oriIndices := oriIndices m; optiIndices := optiIndices m;
     material := material m; gl_buffers := gl_buffers m |}.

(** The branch of an [f] line. *)
Definition parse_face (vertex1 vertex2 vertex3 : string) (t : Temps) (m : OBJModel)
  : comp OBJModel :=
  c0 ← sscanf_ddd vertex1;
  c1 ← sscanf_ddd vertex2;
  c2 ← sscanf_ddd vertex3;
  m ← for_each (λ c m, vertex ← corner_vertex t c; Ok (push_vertex vertex m))
        [c0; c1; c2] m;
  offsets ← generateOffsetVectors 3;
  for_each (λ offset m,
      for_each (λ c m, vertex ← corner_vertex_offset t offset c; Ok (push_vertex vertex m))
        [c0; c1; c2] m)
    offsets m.

(** The body of the [while (std::getline(objFile, line))] loop. *)
Definition parse_line (fs : FileSystem) (filepath : string) (line : obj_line)
    (st : Temps * World) : comp (Temps * World) :=
  let '(t, w) := st in
  match line with
  | L_mtllib mtlFileName =>
      Ok (t, LoadMaterials fs (String.append (directory_of filepath) mtlFileName) w)
  | L_usemtl _ => Ok (t, w)
  | L_v vertex =>
      Ok ({| temp_vertices := temp_vertices t ++ [vertex];
             temp_texCoords := temp_texCoords t;
             temp_normals := temp_normals t |}, w)
  | L_vt texCoord =>
      Ok ({| temp_vertices := temp_vertices t;
             temp_texCoords := temp_texCoords t ++ [texCoord];
             temp_normals := temp_normals t |}, w)
  | L_vn normal =>
      Ok ({| temp_vertices := temp_vertices t;
             temp_texCoords := temp_texCoords t;
             temp_normals := temp_normals t ++ [normal] |}, w)
  | L_f vertex1 vertex2 vertex3 =>
      m ← parse_face vertex1 vertex2 vertex3 t (objModel w);
      Ok (t, with_objModel m w)
  | L_other => Ok (t, w)
  end.

(** ** [OBJModel::optimizingIndices] *)

(** [std::transform(first, last, d_first, op)]: the results overwrite the
    destination from its first element on. *)
Definition transform_into {A B : Type} (op : A → B) (src : list A) (dst : list B) : list B :=
  (op <$> src) ++ drop (length src) dst.

Definition optimizingIndices (m : OBJModel) : OBJModel :=
  let tmpIndices := to_ForsythVertexIndexType <$> indices m in
  let optimizedIndices := replicate (length (indices m)) 0 in
  let optimizedIndices :=
    forsythReorderIndices optimizedIndices tmpIndices
      (to_int (Z.of_nat (length (indices m)) / 3))
      (to_int (Z.of_nat (length (vertices m)))) in
  let optiIndices' := resize (length optimizedIndices) 0 (optiIndices m) in
  let indices' := transform_into to_GLuint optimizedIndices (indices m) in
  {| vertices := vertices m; indices := indices'; oriIndices := oriIndices m;
     optiIndices := optiIndices'; material := material m; gl_buffers := gl_buffers m |}.

Definition loadModelFromFile (fs : FileSystem) (filepath : string) (w : World)
  : result World :=
  match obj_files fs filepath with
  | None => Ret (print_cerr [OStr "Failed to open the OBJ file: "; OStr filepath; OEndl] w)
  | Some lines =>
      match for_each (parse_line fs filepath) lines (Temps_empty, w) with
      | Ub u => Undef u
      | Ok (_, w) =>
          let m := with_oriIndices (indices (objModel w)) (objModel w) in
          let m := optimizingIndices m in
          let w := print_cout [OStr "The number of indices: ";
                               ONum (Z.of_nat (length (indices m))); OEndl]
                     (with_objModel m w) in
          Ret (with_objModel (setupBuffers (objModel w)) w)
      end
  end.

(** [OBJModel::OBJModel(const std::string &filepath)] *)
Definition OBJModel_from_file (fs : FileSystem) (filepath : string) (mat : Material)
    (w : World) : result World :=
  loadModelFromFile fs filepath (with_objModel (OBJModel_default mat) w).

(** ** [OBJModel::setCacheMode] *)

(** [std::iter_swap] on positions [i] and [j] of a range. *)
Definition iter_swap {A : Type} (i j : nat) (l : list A) : list A :=
  match l !! i, l !! j with
  | Some a, Some b => <[j := a]> (<[i := b]> l)
  | _, _ => l
  end.

(** [std::shuffle]: position [i], for [i] from 1 on, is swapped with a
    position in [[0, i]] drawn from the generator; [draw i] stands for the
    number the generator, seeded from the clock, gives at that step. *)
Fixpoint shuffle_loop {A : Type} (draw : nat → nat) (steps i : nat) (l : list A) : list A :=
  match steps with
  | O => l
  | S steps => shuffle_loop draw steps (S i) (iter_swap i (draw i `mod` S i)%nat l)
  end.

Definition shuffle {A : Type} (draw : nat → nat) (l : list A) : list A :=
  shuffle_loop draw (length l - 1)%nat 1%nat l.

(** [for (int i = 0; i < 20; i++) std::cout << indices.at(i) << " ";] from
    [i] on, with [steps] iterations to go. *)
Fixpoint print_indices (steps i : nat) (w : World) : result World :=
  match steps with
  | O => Ret w
  | S steps =>
      match indices (objModel w) !! i with
      | None => Throw out_of_range w
      | Some n => print_indices steps (S i) (print_cout [ONum n; OStr " "] w)
      end
  end.

Definition setCacheMode (mode : Z) (draw : nat → nat) (w : World) : result World :=
  let m := objModel w in
  let m :=
    if mode =? 1 then with_indices (oriIndices m) m
    else if mode =? 2 then with_indices (optiIndices m) m
    else if mode =? 3 then with_indices (shuffle draw (indices m)) m
    else m in
  let w := print_cout [OStr "First twenty indices"; OEndl] (with_objModel m w) in
  match print_indices 20 0 w with
  | Ret w => Ret (print_cout [OEndl] w)
  | r => r
  end.

(** ** The runs of the program *)

(** The states an [OBJModel] can be in: default construction (also the
    first step of the constructor from a path), then loads and mode
    switches in any order, each against the file system and the clock of
    its moment. A call that ends in undefined behaviour has no state
    after it. *)
Inductive reachable : World → Prop :=
| reach_default mat out err :
    reachable {| objModel := OBJModel_default mat; cout := out; cerr := err |}
| reach_load fs filepath w r w' :
    reachable w → r = loadModelFromFile fs filepath w →
    state_after r = Some w' → reachable w'
| reach_mode mode draw w r w' :
    reachable w → r = setCacheMode mode draw w →
    state_after r = Some w' → reachable w'.

(** ** Notions the statements use *)

(** The copy of a vertex that the replication loop emits under [offset]. *)
Definition translate (offset : vec3) (v : Vertex) : Vertex :=
  {| position := vec3_add (position v) offset;
     texCoords := texCoords v;
     normal := normal v |}.

Definition push_vertices (vs : list Vertex) (m : OBJModel) : OBJModel :=
  foldl (λ m v, push_vertex v m) m vs.

(** The index stored for the vertex at position [k]. *)
Definition stored_index (k : nat) : Z := to_GLuint (Z.of_nat k).

(** The integers from [lo] to [hi], in increasing order. *)
Definition int_range (lo hi : Z) : list Z := seqZ lo (hi - lo + 1).

(** The integer triples with every component in
    [[-maxOffset, maxOffset]], the first component varying slowest,
    [(0, 0, 0)] left out. *)
Definition offset_triples (maxOffset : Z) : list (Z * Z * Z) :=
  x ← int_range (- maxOffset) maxOffset;
  y ← int_range (- maxOffset) maxOffset;
  z ← int_range (- maxOffset) maxOffset;
  if negb (x =? 0) || negb (y =? 0) || negb (z =? 0) then [(x, y, z)] else [].

(** The same triples with [(0, 0, 0)] among them. *)
Definition all_triples (maxOffset : Z) : list (Z * Z * Z) :=
  x ← int_range (- maxOffset) maxOffset;
  y ← int_range (- maxOffset) maxOffset;
  z ← int_range (- maxOffset) maxOffset;
  [(x, y, z)].

Definition vec3_of_triple (p : Z * Z * Z) : vec3 :=
  vec3_of_ints p.1.1 p.1.2 p.2.

(** The translated copies of the corners [base] of one triangle, one copy
    per triple of [offset_triples maxOffset], in that order. *)
Definition replicas (maxOffset : Z) (base : list Vertex) : list Vertex :=
  p ← offset_triples maxOffset; translate (vec3_of_triple p) <$> base.

(** A 1-based reference [r] whose subscript [r - 1] lies outside [temp]. *)
Definition ref_out_of_range {A : Type} (temp : list A) (r : Z) : Prop :=
  (length temp ≤ Z.to_nat (to_GLuint (r - 1)))%nat.

Definition ref_ok {A : Type} (temp : list A) (idx : option Z) : bool :=
  match idx with
  | Some r => bool_decide (Z.to_nat (to_GLuint (r - 1)) < length temp)%nat
  | None => false
  end.

(** All three references of a corner were read and lie within the lists. *)
Definition corner_ok (t : Temps) (c : corner) : bool :=
  ref_ok (temp_vertices t) c.1.1 && ref_ok (temp_texCoords t) c.1.2
  && ref_ok (temp_normals t) c.2.

Definition token_ok (t : Temps) (token : string) : bool :=
  match sscanf_ddd token with
  | Ok c => corner_ok t c
  | Ub _ => false
  end.

(** The effect of a line on the three temporary lists. *)
Definition temps_after (line : obj_line) (t : Temps) : Temps :=
  match line with
  | L_v vertex =>
      {| temp_vertices := temp_vertices t ++ [vertex];
         temp_texCoords := temp_texCoords t;
         temp_normals := temp_normals t |}
  | L_vt texCoord =>
      {| temp_vertices := temp_vertices t;
         temp_texCoords := temp_texCoords t ++ [texCoord];
         temp_normals := temp_normals t |}
  | L_vn normal =>
      {| temp_vertices := temp_vertices t;
         temp_texCoords := temp_texCoords t;
         temp_normals := temp_normals t ++ [normal] |}
  | _ => t
  end.

(** The lists after all of [lines]. *)
Fixpoint temps_after_all (lines : list obj_line) (t : Temps) : Temps :=
  match lines with
  | [] => t
  | line :: lines => temps_after_all lines (temps_after line t)
  end.

(** Every face of [lines] refers to attributes that the lines before it
    have provided, [t] being the lists at the start. *)
Fixpoint faces_ok (t : Temps) (lines : list obj_line) : bool :=
  match lines with
  | [] => true
  | line :: lines =>
      match line with
      | L_f vertex1 vertex2 vertex3 =>
          token_ok t vertex1 && token_ok t vertex2 && token_ok t vertex3
      | _ => true
      end && faces_ok (temps_after line t) lines
  end.

Definition is_face (line : obj_line) : bool :=
  match line with
  | L_f _ _ _ => true
  | _ => false
  end.

(** [m'] is [m] with the vertices [vs] appended, each with the index of
    its position, and possibly another material. *)
Definition appended (vs : list Vertex) (m m' : OBJModel) : Prop :=
  vertices m' = vertices m ++ vs ∧
  indices m' = indices m ++ (stored_index <$> seq (length (vertices m)) (length vs)) ∧
  oriIndices m' = oriIndices m ∧
  optiIndices m' = optiIndices m ∧
  gl_buffers m' = gl_buffers m.

(** The number of vertices (and of indices) one face line emits: three
    per triangle, one triangle per offset and the triangle itself. *)
Definition vertices_per_face : nat := 1029.

(** A corner all three of whose references [sscanf] has read. *)
Definition full_corner (r : Z * Z * Z) : corner :=
  (Some r.1.1, Some r.1.2, Some r.2).

(** Some reference of the corner lies outside its list. *)
Definition corner_out_of_range (t : Temps) (r : Z * Z * Z) : Prop :=
  ref_out_of_range (temp_vertices t) r.1.1
  ∨ ref_out_of_range (temp_texCoords t) r.1.2
  ∨ ref_out_of_range (temp_normals t) r.2.

(** The object after the branches of [setCacheMode], before the printing. *)
Definition switched (mode : Z) (draw : nat → nat) (m : OBJModel) : OBJModel :=
  if mode =? 1 then with_indices (oriIndices m) m
  else if mode =? 2 then with_indices (optiIndices m) m
  else if mode =? 3 then with_indices (shuffle draw (indices m)) m
  else m.

(** The three index sequences have one length. *)
Definition same_lengths (m : OBJModel) : Prop :=
  length (oriIndices m) = length (indices m) ∧
  length (optiIndices m) = length (indices m).

(** The mesh holds no geometry. *)
Definition empty_mesh (m : OBJModel) : Prop :=
  vertices m = [] ∧ indices m = [].

(** The states that mode switches alone lead to from [w0]. *)
Inductive mode_switches (w0 : World) : World → Prop :=
| switches_none : mode_switches w0 w0
| switches_mode mode draw w r w' :
    mode_switches w0 w → r = setCacheMode mode draw w →
    state_after r = Some w' → mode_switches w0 w'.

(** The indices of a mesh of [n] vertices in parse order: the index that
    the parser stores for each vertex, in the order of the vertices. *)
Definition parse_order (n : nat) : list Z := stored_index <$> seq 0 n.

End OBJModel.

Arguments generateOffsetVectors : simpl never.
Arguments offset_triples : simpl never.
Arguments all_triples : simpl never.

(** ** [OBJModel::render] *)

(** The two members of [Texture] that [render] uses: whether an image is
    loaded, and [Bind], which appears in the trace below. *)
Class TextureView `{TextureLib} : Type := {
  GetImage : Texture → bool;
}.

Section Render.
Context `{FO : FloatOps, TL : TextureLib, TV : !TextureView}.

(** The calls [render] makes, in order. [glBindVertexArray true] binds the
    vertex array of the object, [glBindVertexArray false] binds [0];
    [glActiveTexture k] selects [GL_TEXTURE0 + k]. *)
Inductive gl_call : Type :=
| glBindVertexArray (own : bool)
| glActiveTexture (unit : Z)
| Texture_Bind (tex : Texture) (slot : Z)
| glDrawElements (count : Z).

Definition render (m : OBJModel) : list gl_call :=
  [glBindVertexArray true]
  ++ (if GetImage (map_kd (material m))
      then [glActiveTexture 0; Texture_Bind (map_kd (material m)) 0] else [])
  ++ (if GetImage (map_bump (material m))
      then [glActiveTexture 1; Texture_Bind (map_kd (material m)) 1] else [])
  ++ (if GetImage (map_ks (material m))
      then [glActiveTexture 2; Texture_Bind (map_kd (material m)) 2] else [])
  ++ [glDrawElements (to_int (Z.of_nat (length (indices m))));
      glBindVertexArray false].

(** The counts of the [glDrawElements] calls among [calls], in order. *)
Definition draw_counts (calls : list gl_call) : list Z :=
  call ← calls;
  match call with
  | glDrawElements count => [count]
  | _ => []
  end.

End Render.

(** ** Further notions the statements use *)

Section MoreNotions.
Context `{FO : FloatOps, TL : TextureLib}.

(** The lines whose branch changes nothing: [usemtl], and the lines with
    a prefix that no branch tests. *)
Definition is_inert (line : obj_line) : bool :=
  match line with
  | L_usemtl _ | L_other => true
  | _ => false
  end.

(** What [LoadMaterials] writes to the error stream for the [mtllib]
    lines of a model at [filepath] when no material file opens. *)
Definition mtllib_messages (filepath : string) (lines : list obj_line) : list out_item :=
  line ← lines;
  match line with
  | L_mtllib mtlFileName =>
      [OStr "Could not open MTL file at ";
       OStr (String.append (directory_of filepath) mtlFileName); OEndl]
  | _ => []
  end.

(** The call that [optimizingIndices] makes on [m] does what section 4.3
    asks, under the tuning [p]: the buffer it leaves holds an output of
    the greedy loop for the [nTriangles] triangles passed, and after it
    what the buffer held before. *)
Definition follows_spec (FL : ForsythLib) (p : Forsyth.tuning) (m : OBJModel) : Prop :=
  let tmpIndices := to_ForsythVertexIndexType <$> indices m in
  let optimizedIndices := replicate (length (indices m)) 0 in
  let nTriangles := to_int (Z.of_nat (length (indices m)) / 3) in
  let nVertices := to_int (Z.of_nat (length (vertices m))) in
  ∃ reordered,
    Forsyth.optimize_output p (take (3 * Z.to_nat nTriangles) tmpIndices)
      nVertices reordered ∧
    forsythReorderIndices optimizedIndices tmpIndices nTriangles nVertices
    = reordered ++ drop (length reordered) optimizedIndices.

(** The vertex that the references [r] of a corner select: the elements
    at the subscripts [r - 1] of the three lists. *)
Definition selects (t : Temps) (r : Z * Z * Z) (v : Vertex) : Prop :=
  temp_vertices t !! Z.to_nat (to_GLuint (r.1.1 - 1)) = Some (position v) ∧
  temp_texCoords t !! Z.to_nat (to_GLuint (r.1.2 - 1)) = Some (texCoords v) ∧
  temp_normals t !! Z.to_nat (to_GLuint (r.2 - 1)) = Some (normal v).

End MoreNotions.

(** ** Text *)

(** No character of [s] is a separator. *)
Fixpoint no_separator (s : string) : bool :=
  match s with
  | EmptyString => true
  | String c r => negb (is_separator c) && no_separator r
  end.

(** The decimal numeral of [n], as a producer of .obj files writes it. *)
Definition decimal (n : N) : string :=
  DecimalString.NilZero.string_of_uint (N.to_uint n).

(** The two-character string [//] and the one-character string [/]. *)
Definition slash : string := String (ascii_of_nat 47) EmptyString.
Definition double_slash : string := String (ascii_of_nat 47) slash.

(** [rest] does not begin with a digit: a run of digits before it ends
    there. *)
Definition stops_scan (rest : list ascii) : Prop :=
  match rest with
  | c :: _ => digit_of c = None
  | [] => True
  end.

(** ** [LoadShaderAsString] (main.cpp) *)

Definition newline : ascii := ascii_of_nat 10.
Definition is_newline (c : ascii) : bool := (nat_of_ascii c =? 10)%nat.

(** The lines that successive calls of [std::getline] extract from a
    stream holding [text]: a line ends at a newline, which is dropped, or
    at the end of the text; at the end of the text with nothing read the
    extraction fails and the loop ends. *)
Fixpoint getlines (text : string) : list string :=
  match text with
  | EmptyString => []
  | String c rest =>
      if is_newline c then EmptyString :: getlines rest
      else match getlines rest with
           | [] => [String c EmptyString]
           | line :: lines => String c line :: lines
           end
  end.

(** [file] is the content of the file, [None] when it does not open. *)
Definition LoadShaderAsString (file : option string) : string :=
  match file with
  | Some text =>
      foldl (λ result line, result +:+ (line +:+ String newline EmptyString))
        EmptyString (getlines text)
  | None => EmptyString
  end.

(** The last character of [s] is a newline. *)
Fixpoint ends_with_newline (s : string) : bool :=
  match s with
  | EmptyString => false
  | String c EmptyString => is_newline c
  | String _ rest => ends_with_newline rest
  end.

(** The lines of [lines], each followed by a newline. *)
Definition unlines (lines : list string) : string :=
  foldr (λ line rest, line +:+ String newline rest) EmptyString lines.

(** ** The frame times of [Draw] (main.cpp) *)

(** [double] and the operations that [Draw] applies to it. *)
Class DoubleOps : Type := {
  double : Type;
  d_zero : double;
  d_one : double;
  d_add : double → double → double;
  d_div : double → double → double;
  d_of_size : nat → double;
}.

Section FrameTimes.
Context `{DO : DoubleOps}.

Definition maxFrameSamples : nat := 1000.

(** The part of [Draw] after [objModel.render()]: [elapsed] is the time
    that the clock gave for the call; the result is the new [frameTimes]
    and, when the two lines are printed, the average frame time and the
    average number of frames per second. *)
Definition Draw_frameTimes (elapsed : double) (frameTimes : list double)
  : list double * option (double * double) :=
  let frameTimes := frameTimes ++ [elapsed] in
  if (length frameTimes `mod` maxFrameSamples =? 0)%nat then
    let sum := foldl d_add d_zero frameTimes in
    let averageFrameTime := d_div sum (d_of_size (length frameTimes)) in
    let averageFPS := d_div d_one averageFrameTime in
    ([], Some (averageFrameTime, averageFPS))
  else (frameTimes, None).

(** The two numbers printed for the frame times [samples]: their
    average, and its inverse. *)
Definition average_report (samples : list double) : double * double :=
  let averageFrameTime := d_div (foldl d_add d_zero samples) (d_of_size (length samples)) in
  (averageFrameTime, d_div d_one averageFrameTime).

(** The [i]-th run of [maxFrameSamples] consecutive frame times. *)
Definition frame_window (times : list double) (i : nat) : list double :=
  take maxFrameSamples (drop (maxFrameSamples * i) times).

(** [frameTimes] and the reports printed, oldest first, after the frames
    whose times are [times]. *)
Definition Draw_frames (times : list double) (frameTimes : list double)
  : list double * list (double * double) :=
  foldl (λ '(frameTimes, reports) elapsed,
           let '(frameTimes, report) := Draw_frameTimes elapsed frameTimes in
           (frameTimes, reports ++ option_list report))
        (frameTimes, []) times.

End FrameTimes.

(** ** The keys of [Input] that act on [objModel] (main.cpp) *)

Module Main.
Section Main.
Context `{FO : FloatOps, TL : TextureLib, FL : ForsythLib}.

(** The seven globals [KeyPressed1] ... [KeyPressed0]. *)
Record KeyFlags : Type := {
  KeyPressed1 : bool;
  KeyPressed2 : bool;
  KeyPressed3 : bool;
  KeyPressed7 : bool;
  KeyPressed8 : bool;
  KeyPressed9 : bool;
  KeyPressed0 : bool;
}.

(** The entries of the array of [SDL_GetKeyboardState] that these blocks
    read. *)
Record Keyboard : Type := {
  SCANCODE_1 : bool;
  SCANCODE_2 : bool;
  SCANCODE_3 : bool;
  SCANCODE_7 : bool;
  SCANCODE_8 : bool;
  SCANCODE_9 : bool;
  SCANCODE_0 : bool;
}.

(** The globals these blocks use: the flags, [filepath], and [objModel]
    with the streams. *)
Record Globals : Type := {
  keyFlags : KeyFlags;
  filepath : string;
  world : World;
}.

Definition set_KeyPressed1 (b : bool) (f : KeyFlags) : KeyFlags :=
  {| KeyPressed1 := b; KeyPressed2 := KeyPressed2 f; KeyPressed3 := KeyPressed3 f;
     KeyPressed7 := KeyPressed7 f; KeyPressed8 := KeyPressed8 f;
     KeyPressed9 := KeyPressed9 f; KeyPressed0 := KeyPressed0 f |}.
Definition set_KeyPressed2 (b : bool) (f : KeyFlags) : KeyFlags :=
  {| KeyPressed1 := KeyPressed1 f; KeyPressed2 := b; KeyPressed3 := KeyPressed3 f;
     KeyPressed7 := KeyPressed7 f; KeyPressed8 := KeyPressed8 f;
     KeyPressed9 := KeyPressed9 f; KeyPressed0 := KeyPressed0 f |}.
Definition set_KeyPressed3 (b : bool) (f : KeyFlags) : KeyFlags :=
  {| KeyPressed1 := KeyPressed1 f; KeyPressed2 := KeyPressed2 f; KeyPressed3 := b;
     KeyPressed7 := KeyPressed7 f; KeyPressed8 := KeyPressed8 f;
     KeyPressed9 := KeyPressed9 f; KeyPressed0 := KeyPressed0 f |}.
Definition set_KeyPressed7 (b : bool) (f : KeyFlags) : KeyFlags :=
  {| KeyPressed1 := KeyPressed1 f; KeyPressed2 := KeyPressed2 f;
     KeyPressed3 := KeyPressed3 f; KeyPressed7 := b; KeyPressed8 := KeyPressed8 f;
     KeyPressed9 := KeyPressed9 f; KeyPressed0 := KeyPressed0 f |}.
Definition set_KeyPressed8 (b : bool) (f : KeyFlags) : KeyFlags :=
  {| KeyPressed1 := KeyPressed1 f; KeyPressed2 := KeyPressed2 f;
     KeyPressed3 := KeyPressed3 f; KeyPressed7 := KeyPressed7 f; KeyPressed8 := b;
     KeyPressed9 := KeyPressed9 f; KeyPressed0 := KeyPressed0 f |}.
Definition set_KeyPressed9 (b : bool) (f : KeyFlags) : KeyFlags :=
  {| KeyPressed1 := KeyPressed1 f; KeyPressed2 := KeyPressed2 f;
     KeyPressed3 := KeyPressed3 f; KeyPressed7 := KeyPressed7 f;
     KeyPressed8 := KeyPressed8 f; KeyPressed9 := b; KeyPressed0 := KeyPressed0 f |}.
Definition set_KeyPressed0 (b : bool) (f : KeyFlags) : KeyFlags :=
  {| KeyPressed1 := KeyPressed1 f; KeyPressed2 := KeyPressed2 f;
     KeyPressed3 := KeyPressed3 f; KeyPressed7 := KeyPressed7 f;
     KeyPressed8 := KeyPressed8 f; KeyPressed9 := KeyPressed9 f; KeyPressed0 := b |}.

(** Statements in sequence: an exception or undefined behaviour ends the
    frame. *)
Definition and_then {S : Type} (r : result S) (k : S → result S) : result S :=
  match r with
  | Ret s => k s
  | r => r
  end.

(** One block of the form
    [if (state[K] && !KeyPressedK) { std::cout << label << std::endl;
    objModel.setCacheMode(mode); KeyPressedK = true; }
    else if (!state[K]) { KeyPressedK = false; }]. *)
Definition mode_key (pressed : bool) (get : KeyFlags → bool)
    (set : bool → KeyFlags → KeyFlags) (label : string) (mode : Z)
    (draw : nat → nat) (g : Globals) : result Globals :=
  if pressed && negb (get (keyFlags g)) then
    match setCacheMode mode draw (print_cout [OStr label; OEndl] (world g)) with
    | Ret w => Ret {| keyFlags := set true (keyFlags g); filepath := filepath g; world := w |}
    | Throw e w => Throw e {| keyFlags := keyFlags g; filepath := filepath g; world := w |}
    | Undef u => Undef u
    end
  else if negb pressed then
    Ret {| keyFlags := set false (keyFlags g); filepath := filepath g; world := world g |}
  else Ret g.

(** One block of the form
    [if (state[K] && !KeyPressedK) { std::cout << label << std::endl;
    filepath = path; objModel.loadModelFromFile(filepath); KeyPressedK = true; }
    else if (!state[K]) { KeyPressedK = false; }]. *)
Definition load_key (pressed : bool) (get : KeyFlags → bool)
    (set : bool → KeyFlags → KeyFlags) (label : string) (path : string)
    (fs : FileSystem) (g : Globals) : result Globals :=
  if pressed && negb (get (keyFlags g)) then
    match loadModelFromFile fs path (print_cout [OStr label; OEndl] (world g)) with
    | Ret w => Ret {| keyFlags := set true (keyFlags g); filepath := path; world := w |}
    | Throw e w => Throw e {| keyFlags := keyFlags g; filepath := path; world := w |}
    | Undef u => Undef u
    end
  else if negb pressed then
    Ret {| keyFlags := set false (keyFlags g); filepath := filepath g; world := world g |}
  else Ret g.

(** The seven blocks of [Input] from "Vertex Cache Optimiziation Mode
    on/off" to the block of key 0, in their order; [fs] is the disk and
    [draw] the generator of the frame. *)
Definition Input_keys (fs : FileSystem) (draw : nat → nat) (state : Keyboard)
    (g : Globals) : result Globals :=
  and_then (mode_key (SCANCODE_1 state) KeyPressed1 set_KeyPressed1
              "Original indices!" 1 draw g) (λ g,
  and_then (mode_key (SCANCODE_2 state) KeyPressed2 set_KeyPressed2
              "Optimized indices!" 2 draw g) (λ g,
  and_then (mode_key (SCANCODE_3 state) KeyPressed3 set_KeyPressed3
              "Randomized indices!" 3 draw g) (λ g,
  and_then (load_key (SCANCODE_7 state) KeyPressed7 set_KeyPressed7
              "Tree object!" "./../common/objects/tree_3/HandpaintedTree.obj" fs g) (λ g,
  and_then (load_key (SCANCODE_8 state) KeyPressed8 set_KeyPressed8
              "Cube object!" "./../common/objects/textured_cube/cube.obj" fs g) (λ g,
  and_then (load_key (SCANCODE_9 state) KeyPressed9 set_KeyPressed9
              "Chapel object!" "./../common/objects/chapel/chapel_obj.obj" fs g) (λ g,
            load_key (SCANCODE_0 state) KeyPressed0 set_KeyPressed0
              "House object!" "./../common/objects/house/house_obj.obj" fs g)))))).

(** The flags after a frame that ran to its end under [state]. *)
Definition flags_of (state : Keyboard) : KeyFlags :=
  {| KeyPressed1 := SCANCODE_1 state; KeyPressed2 := SCANCODE_2 state;
     KeyPressed3 := SCANCODE_3 state; KeyPressed7 := SCANCODE_7 state;
     KeyPressed8 := SCANCODE_8 state; KeyPressed9 := SCANCODE_9 state;
     KeyPressed0 := SCANCODE_0 state |}.

End Main.
End Main.

(** ** Sample collaborators and files *)

Module Sample.

Definition material0 `{FloatOps, TextureLib} (tex : Texture) : Material :=
  {| ns := float_of_int 0;
     ka := (float_of_int 0, float_of_int 0, float_of_int 0);
     kd := (float_of_int 0, float_of_int 0, float_of_int 0);
     ks := (float_of_int 0, float_of_int 0, float_of_int 0);
     ke := (float_of_int 0, float_of_int 0, float_of_int 0);
     ni := float_of_int 0; d := float_of_int 0; illum := 0;
     map_kd := tex; map_bump := tex; map_ks := tex |}.

(** Three positions, texture coordinates and normals. *)
Definition triangle_attributes `{FloatOps} : list obj_line :=
  [ L_v (vec3_of_ints 0 0 0); L_v (vec3_of_ints 1 0 0); L_v (vec3_of_ints 0 1 0);
    L_vt (Vec2 (float_of_int 0) (float_of_int 0));
    L_vt (Vec2 (float_of_int 1) (float_of_int 0));
    L_vt (Vec2 (float_of_int 0) (float_of_int 1));
    L_vn (vec3_of_ints 0 0 1); L_vn (vec3_of_ints 0 0 2); L_vn (vec3_of_ints 0 0 3) ].

(** The line [f 1/1/1 2/2/2 3/3/3]. *)
Definition face123 `{FloatOps} : obj_line := L_f "1/1/1" "2/2/2" "3/3/3".

(** One triangle. *)
Definition triangle_lines `{FloatOps} : list obj_line :=
  triangle_attributes ++ [face123].

(** Another triangle, elsewhere. *)
Definition other_triangle_lines `{FloatOps} : list obj_line :=
  [ L_v (vec3_of_ints 5 5 5); L_v (vec3_of_ints 6 5 5); L_v (vec3_of_ints 5 6 5);
    L_vt (Vec2 (float_of_int 0) (float_of_int 0));
    L_vt (Vec2 (float_of_int 1) (float_of_int 0));
    L_vt (Vec2 (float_of_int 0) (float_of_int 1));
    L_vn (vec3_of_ints 0 0 1); L_vn (vec3_of_ints 0 0 2); L_vn (vec3_of_ints 0 0 3);
    face123 ].

(** A face that refers to attributes no line has provided. *)
Definition dangling_lines `{FloatOps} : list obj_line := [face123].

(** The number of faces after which the vertex count passes [2^32]:
    [4173924 * 1029 = 2^32 + 500]. *)
Definition many : nat := Z.to_nat 4173924.

(** The attributes of the triangle and [k] times its face. *)
Definition repeated_triangle `{FloatOps} (k : nat) : list obj_line :=
  triangle_attributes ++ replicate k face123.

(** The triangle, [many] times over. *)
Definition many_faces_lines `{FloatOps} : list obj_line := repeated_triangle many.

(** A disk with these models and no material file. *)
Definition disk `{FloatOps} : FileSystem :=
  {| obj_files := λ path,
       if String.eqb path "triangle.obj" then Some triangle_lines
       else if String.eqb path "other.obj" then Some other_triangle_lines
       else if String.eqb path "dangling.obj" then Some dangling_lines
       else if String.eqb path "many.obj" then Some many_faces_lines
       else None;
     mtl_files := λ _, None |}.

(** Integers standing for floats. *)
Definition Zfloat : FloatOps :=
  {| float := Z; fadd := Z.add; float_of_int := λ n, n |}.

(** A texture is the path it was last loaded from. *)
Definition path_textures : TextureLib :=
  {| Texture := option string; LoadTexture := λ path _, Some path |}.

(** A reordering that keeps the order of its input. *)
Definition keep_order (out ind : list Z) (nTriangles nVertices : Z) : list Z :=
  take (length out) ind ++ drop (length ind) out.

Definition keep_order_lib : ForsythLib.
Proof.
  refine {| to_ForsythVertexIndexType := to_GLuint;
            forsythReorderIndices := keep_order |}.
  intros out ind nt nv. unfold keep_order.
  rewrite length_app, length_take, length_drop. lia.
Defined.

#[local] Existing Instances Zfloat path_textures keep_order_lib.

Definition world0 : World := World_default (material0 None).

(** The lists after the nine attribute lines of the triangle. *)
Definition temps3 : Temps := temps_after_all triangle_attributes Temps_empty.

(** The state a call leaves, or the state before if it leaves none. *)
Definition after (r : result World) (w : World) : World :=
  default w (state_after r).

(** The triangle loaded into the default-constructed object. *)
Definition loaded_world : World :=
  after (loadModelFromFile disk "triangle.obj" world0) world0.

(** A generator that always draws [0]. *)
Definition draw0 (i : nat) : nat := 0%nat.

(** A score curve that falls with the cache position and rewards a low
    valence, and a cache of 32 vertices. *)
Definition tuning32 : Forsyth.tuning :=
  {| Forsyth.vertex_score := λ pos valence,
       match pos with
       | Some k => Z.of_nat (32 - k)
       | None => 0
       end
       + match valence with
         | O => 0
         | S _ => Z.of_nat (4 / valence)
         end;
     Forsyth.cache_size := 32 |}.

(** A library that runs the loop of section 4.3 under [tuning32]. *)
Definition greedy (out ind : list Z) (nTriangles nVertices : Z) : list Z :=
  let reordered := Forsyth.reorder tuning32 (take (3 * Z.to_nat nTriangles) ind) in
  take (length out) (reordered ++ drop (length reordered) out).

Definition greedy_lib : ForsythLib.
Proof.
  refine {| to_ForsythVertexIndexType := to_GLuint;
            forsythReorderIndices := greedy |}.
  intros out ind nt nv. unfold greedy.
  rewrite length_take, length_app, length_drop. lia.
Defined.

(** Two objects with the same two triangles, which share no vertex, and
    nothing else in common. *)
Definition pair_mesh : OBJModel :=
  {| vertices := replicate 6 {| position := vec3_of_ints 0 0 0; texCoords := Vec2 0 0;
                                normal := vec3_of_ints 0 0 1 |};
     indices := [0; 1; 2; 3; 4; 5];
     oriIndices := [0; 1; 2; 3; 4; 5];
     optiIndices := [0; 0; 0; 0; 0; 0];
     material := material0 None;
     gl_buffers := None |}.

Definition pair_mesh' : OBJModel :=
  {| vertices := replicate 6 {| position := vec3_of_ints 7 7 7; texCoords := Vec2 1 1;
                                normal := vec3_of_ints 1 0 0 |};
     indices := [0; 1; 2; 3; 4; 5];
     oriIndices := [5; 4; 3; 2; 1; 0];
     optiIndices := [0; 0; 0; 0; 0; 0];
     material := material0 (Some "bark.png");
     gl_buffers := None |}.

(** A texture holds an image once it has been loaded. *)
Definition loaded_images : @TextureView path_textures :=
  @Build_TextureView path_textures (λ tex : option string, bool_decide (is_Some tex)).

(** The state after [setCacheMode(3)] on the loaded triangle. *)
Definition shuffled_world : World :=
  after (setCacheMode 3 draw0 loaded_world) loaded_world.

(** The state after the load of another model on top of that. *)
Definition reloaded_world : World :=
  after (loadModelFromFile disk "other.obj" shuffled_world) shuffled_world.

(** The object after the face [f 1/1/1 2/2/2 3/3/3] on the
    default-constructed object. *)
Definition face_mesh : OBJModel :=
  match parse_face "1/1/1" "2/2/2" "3/3/3" temps3 (objModel world0) with
  | Ok m => m
  | Ub _ => objModel world0
  end.

(** A disk with one model and no material file. *)
Definition single_file (path : string) (lines : list obj_line) : FileSystem :=
  {| obj_files := λ p, if String.eqb p path then Some lines else None;
     mtl_files := λ _, None |}.

(** The triangle with a [usemtl] line before it and a comment after. *)
Definition annotated_lines : list obj_line :=
  L_usemtl "bark" :: triangle_lines ++ [L_other].

(** The triangle with the name of a material file before it. *)
Definition triangle_with_mtllib : list obj_line :=
  L_mtllib "tree.mtl" :: triangle_lines.

(** No key held and none seen held; the default-constructed object. *)
Definition no_keys : Main.Keyboard :=
  {| Main.SCANCODE_1 := false; Main.SCANCODE_2 := false; Main.SCANCODE_3 := false;
     Main.SCANCODE_7 := false; Main.SCANCODE_8 := false; Main.SCANCODE_9 := false;
     Main.SCANCODE_0 := false |}.

Definition globals0 : Main.Globals :=
  {| Main.keyFlags := Main.flags_of no_keys;
     Main.filepath := "./../common/objects/tree_3/HandpaintedTree.obj";
     Main.world := world0 |}.

(** Key 7 held, and key 2 held. *)
Definition key7 : Main.Keyboard :=
  {| Main.SCANCODE_1 := false; Main.SCANCODE_2 := false; Main.SCANCODE_3 := false;
     Main.SCANCODE_7 := true; Main.SCANCODE_8 := false; Main.SCANCODE_9 := false;
     Main.SCANCODE_0 := false |}.

Definition key2 : Main.Keyboard :=
  {| Main.SCANCODE_1 := false; Main.SCANCODE_2 := true; Main.SCANCODE_3 := false;
     Main.SCANCODE_7 := false; Main.SCANCODE_8 := false; Main.SCANCODE_9 := false;
     Main.SCANCODE_0 := false |}.

(** The globals after one frame with key 7 held, on a disk without the
    tree model. *)
Definition globals_after_key7 : Main.Globals :=
  match Main.Input_keys disk draw0 key7 globals0 with
  | Ret g => g
  | _ => globals0
  end.

End Sample.

(** * Properties *)

Section Theory.
Context `{FO : FloatOps, TL : TextureLib, FL : ForsythLib}.

(** ** [sscanf] on corner groups *)

Example sscanf_full : sscanf_ddd "12/7/3" = Ok (Some 12, Some 7, Some 3).
Proof. reflexivity. Qed.

Example sscanf_negative : sscanf_ddd "-1/2/3" = Ok (Some 4294967295, Some 2, Some 3).
Proof. reflexivity. Qed.

Example sscanf_no_texture : sscanf_ddd "3//4" = Ok (Some 3, None, None).
Proof. reflexivity. Qed.

Example sscanf_empty : sscanf_ddd EmptyString = Ok (None, None, None).
Proof. reflexivity. Qed.

(** ** Machine integers *)

Lemma to_GLuint_small n : 0 ≤ n < UINT_MODULUS → to_GLuint n = n.
Proof. intros Hn. unfold to_GLuint. by rewrite Z.mod_small. Qed.

Lemma to_GLuint_range n : 0 ≤ to_GLuint n < UINT_MODULUS.
Proof. unfold to_GLuint, UINT_MODULUS. apply Z.mod_pos_bound. lia. Qed.

(** ** Loops *)

Lemma for_each_app {A S : Type} (body : A → S → comp S) l1 l2 s :
  for_each body (l1 ++ l2) s = (for_each body l1 s ≫= for_each body l2).
Proof.
  revert s. induction l1 as [|a l1 IH]; intros s; simpl; [done|].
  destruct (body a s) as [s'|u]; simpl; [apply IH | done].
Qed.

Lemma for_each_pure {A S : Type} (body : A → S → comp S) (f : A → S → S) l s :
  (∀ a s, body a s = Ok (f a s)) →
  for_each body l s = Ok (foldl (λ s a, f a s) s l).
Proof.
  intros Hb. revert s. induction l as [|a l IH]; intros s; simpl; [done|].
  rewrite Hb. simpl. apply IH.
Qed.

(** A loop that appends to a list: the pieces in the order of the
    iterations. *)
Lemma for_each_appends {A B : Type} (body : A → list B → comp (list B))
    (g : A → list B) l acc :
  (∀ a acc, body a acc = Ok (acc ++ g a)) →
  for_each body l acc = Ok (acc ++ (l ≫= g)).
Proof.
  intros Hb. revert acc. induction l as [|a l IH]; intros acc.
  - cbn. by rewrite app_nil_r.
  - cbn [for_each]. rewrite Hb. cbn [mbind comp_bind].
    by rewrite IH, bind_cons, app_assoc.
Qed.

Lemma int_neg_Ok n : n ≠ INT_MIN → int_neg n = Ok (- n).
Proof. intros Hn. unfold int_neg. by rewrite (proj2 (Z.eqb_neq _ _) Hn). Qed.

Lemma for_int_appends {B : Type} (body : Z → list B → comp (list B))
    (g : Z → list B) lo hi acc :
  hi < INT_MAX →
  (∀ i acc, body i acc = Ok (acc ++ g i)) →
  for_int lo hi body acc = Ok (acc ++ (int_range lo hi ≫= g)).
Proof.
  intros Hhi Hb. unfold for_int, int_range.
  destruct (Z.ltb_spec hi lo) as [Hlt|Hle].
  - rewrite seqZ_nil by lia. cbn. by rewrite app_nil_r.
  - rewrite (for_each_appends body g) by done. cbn [mbind comp_bind].
    by rewrite (proj2 (Z.eqb_neq _ _)) by lia.
Qed.


(** ** Appending vertices *)

Lemma push_vertices_app vs1 vs2 m :
  push_vertices (vs1 ++ vs2) m = push_vertices vs2 (push_vertices vs1 m).
Proof. unfold push_vertices. apply foldl_app. Qed.

Lemma push_vertices_vertices vs m :
  vertices (push_vertices vs m) = vertices m ++ vs.
Proof.
  revert m. induction vs as [|v vs IH]; intros m; simpl.
  - by rewrite app_nil_r.
  - change (push_vertices (v :: vs) m) with (push_vertices vs (push_vertex v m)).
    rewrite IH. simpl. by rewrite <- app_assoc.
Qed.

Lemma push_vertices_indices vs m :
  indices (push_vertices vs m)
  = indices m ++ (stored_index <$> seq (length (vertices m)) (length vs)).
Proof.
  revert m. induction vs as [|v vs IH]; intros m; simpl.
  - by rewrite app_nil_r.
  - change (push_vertices (v :: vs) m) with (push_vertices vs (push_vertex v m)).
    rewrite IH. simpl. rewrite <- app_assoc. f_equal. simpl. f_equal.
    + unfold stored_index. f_equal. rewrite length_app. simpl. lia.
    + rewrite length_app. simpl. by rewrite Nat.add_1_r.
Qed.

Lemma push_vertices_oriIndices vs m :
  oriIndices (push_vertices vs m) = oriIndices m.
Proof. revert m. induction vs as [|v vs IH]; intros m; [done|]. simpl. by rewrite IH. Qed.

Lemma push_vertices_optiIndices vs m :
  optiIndices (push_vertices vs m) = optiIndices m.
Proof. revert m. induction vs as [|v vs IH]; intros m; [done|]. simpl. by rewrite IH. Qed.

Lemma push_vertices_material vs m :
  material (push_vertices vs m) = material m.
Proof. revert m. induction vs as [|v vs IH]; intros m; [done|]. simpl. by rewrite IH. Qed.

Lemma push_vertices_gl_buffers vs m :
  gl_buffers (push_vertices vs m) = gl_buffers m.
Proof. revert m. induction vs as [|v vs IH]; intros m; [done|]. simpl. by rewrite IH. Qed.

(** ** The offsets *)

Lemma elem_of_int_range lo hi k : k ∈ int_range lo hi ↔ lo ≤ k ≤ hi.
Proof. unfold int_range. rewrite elem_of_seqZ. lia. Qed.

Lemma length_int_range lo hi : length (int_range lo hi) = Z.to_nat (hi - lo + 1).
Proof. unfold int_range. apply length_seqZ. Qed.

Lemma NoDup_int_range lo hi : NoDup (int_range lo hi).
Proof. apply NoDup_seqZ. Qed.

Lemma fmap_list_bind {A B C : Type} (f : B → C) (g : A → list B) (l : list A) :
  f <$> (l ≫= g) = l ≫= (λ a, f <$> g a).
Proof.
  induction l as [|a l IH]; [done|].
  rewrite !bind_cons, fmap_app. by rewrite IH.
Qed.

(** Within the range of [int], short of its two ends, the three loops
    run without overflow and collect the conversions of the triples. *)
Lemma generateOffsetVectors_Ok n :
  INT_MIN < n < INT_MAX →
  generateOffsetVectors n = Ok (vec3_of_triple <$> offset_triples n).
Proof.
  intros Hn. unfold generateOffsetVectors, offset_triples.
  rewrite int_neg_Ok by lia. cbn [mbind comp_bind].
  rewrite (for_int_appends _
             (λ x, y ← int_range (- n) n; z ← int_range (- n) n;
                   if negb (x =? 0) || negb (y =? 0) || negb (z =? 0)
                   then [vec3_of_ints x y z] else [])).
  - rewrite app_nil_l, fmap_list_bind. f_equal.
    apply list_bind_ext; [intros x|done].
    rewrite fmap_list_bind. apply list_bind_ext; [intros y|done].
    rewrite fmap_list_bind. apply list_bind_ext; [intros z|done].
    by destruct (negb (x =? 0) || negb (y =? 0) || negb (z =? 0)).
  - lia.
  - intros x acc. apply for_int_appends; [lia|].
    intros y acc'. apply for_int_appends; [lia|].
    intros z acc''.
    destruct (negb (x =? 0) || negb (y =? 0) || negb (z =? 0)); [done|].
    by rewrite app_nil_r.
Qed.

Lemma generateOffsetVectors_3 :
  generateOffsetVectors 3 = Ok (vec3_of_triple <$> offset_triples 3).
Proof. by apply generateOffsetVectors_Ok. Qed.


(** ** Corners and faces *)

Lemma fetch_Some {A : Type} (temp : list A) r :
  fetch temp (Some r) = subscript temp (to_GLuint (r - 1)).
Proof. done. Qed.

Lemma ref_ok_fetch {A : Type} (temp : list A) idx :
  ref_ok temp idx = true → ∃ a, fetch temp idx = Ok a.
Proof.
  destruct idx as [r|]; simpl; [|done].
  intros Hlt%bool_decide_eq_true. rewrite fetch_Some. unfold subscript.
  destruct (lookup_lt_is_Some_2 temp _ Hlt) as [a ->]. by exists a.
Qed.

Lemma fetch_out_of_range {A : Type} (temp : list A) r :
  ref_out_of_range temp r → fetch temp (Some r) = Ub OutOfBoundsRead.
Proof.
  unfold ref_out_of_range. intros Hge. rewrite fetch_Some. unfold subscript.
  by rewrite (lookup_ge_None_2 temp _ Hge).
Qed.

(** For a reference as [sscanf] stores it and a list shorter than [2^32],
    the subscript is outside the list exactly when the 1-based reference
    is not in [[1, size]]. *)
Lemma ref_out_of_range_1_based {A : Type} (temp : list A) r :
  0 ≤ r < UINT_MODULUS → Z.of_nat (length temp) < UINT_MODULUS →
  ref_out_of_range temp r ↔ ¬ (1 ≤ r ≤ Z.of_nat (length temp)).
Proof.
  unfold ref_out_of_range. intros Hr Hlen.
  destruct (decide (r = 0)) as [->|Hne].
  - change (to_GLuint (0 - 1)) with (UINT_MODULUS - 1). lia.
  - rewrite to_GLuint_small by lia. lia.
Qed.

Lemma fetch_Some_cases {A : Type} (temp : list A) r :
  (∃ a, fetch temp (Some r) = Ok a ∧ ¬ ref_out_of_range temp r)
  ∨ (fetch temp (Some r) = Ub OutOfBoundsRead ∧ ref_out_of_range temp r).
Proof.
  destruct (decide (Z.to_nat (to_GLuint (r - 1)) < length temp)%nat) as [Hlt|Hge].
  - left. destruct (ref_ok_fetch temp (Some r)) as [a Ha].
    + simpl. by apply bool_decide_eq_true.
    + exists a. split; [done|]. unfold ref_out_of_range. lia.
  - right. assert (ref_out_of_range temp r) by (unfold ref_out_of_range; lia).
    split; [by apply fetch_out_of_range | done].
Qed.

Lemma corner_ok_vertex t c :
  corner_ok t c = true → ∃ v, corner_vertex t c = Ok v.
Proof.
  destruct c as [[a b] c]. unfold corner_ok. simpl.
  intros [[Ha Hb]%andb_prop Hc]%andb_prop.
  destruct (ref_ok_fetch _ _ Ha) as [p Hp].
  destruct (ref_ok_fetch _ _ Hb) as [uv Huv].
  destruct (ref_ok_fetch _ _ Hc) as [n Hn].
  rewrite Hp. simpl. rewrite Huv. simpl. rewrite Hn. simpl. eauto.
Qed.

Lemma corner_vertex_offset_ok t offset c v :
  corner_vertex t c = Ok v →
  corner_vertex_offset t offset c = Ok (translate offset v).
Proof.
  destruct c as [[a b] c]. unfold corner_vertex, corner_vertex_offset.
  destruct (fetch (temp_vertices t) a) as [p|]; simpl; [|done].
  destruct (fetch (temp_texCoords t) b) as [uv|]; simpl; [|done].
  destruct (fetch (temp_normals t) c) as [n|]; simpl; [|done].
  by intros [= <-].
Qed.

Lemma replication_loop t c0 c1 c2 v0 v1 v2 offsets m :
  corner_vertex t c0 = Ok v0 → corner_vertex t c1 = Ok v1 → corner_vertex t c2 = Ok v2 →
  for_each (λ offset m,
      for_each (λ c m, vertex ← corner_vertex_offset t offset c; Ok (push_vertex vertex m))
        [c0; c1; c2] m)
    offsets m
  = Ok (push_vertices (offset ← offsets; translate offset <$> [v0; v1; v2]) m).
Proof.
  intros H0 H1 H2. revert m.
  induction offsets as [|offset offsets IH]; intros m; [done|].
  cbn [for_each].
  rewrite (corner_vertex_offset_ok _ offset _ _ H0),
    (corner_vertex_offset_ok _ offset _ _ H1),
    (corner_vertex_offset_ok _ offset _ _ H2).
  cbn [mbind comp_bind]. rewrite IH. done.
Qed.

Lemma replicas_offsets n (base : list Vertex) :
  (offset ← vec3_of_triple <$> offset_triples n; translate offset <$> base)
  = replicas n base.
Proof.
  unfold replicas. induction (offset_triples n) as [|p l IH]; [done|].
  by rewrite fmap_cons, !bind_cons, IH.
Qed.

(** A face whose corners are read and in range: the three vertices of the
    corners, then their copies under every offset. *)
Lemma parse_face_ok vertex1 vertex2 vertex3 t m c0 c1 c2 v0 v1 v2 :
  sscanf_ddd vertex1 = Ok c0 → sscanf_ddd vertex2 = Ok c1 → sscanf_ddd vertex3 = Ok c2 →
  corner_vertex t c0 = Ok v0 → corner_vertex t c1 = Ok v1 → corner_vertex t c2 = Ok v2 →
  parse_face vertex1 vertex2 vertex3 t m
  = Ok (push_vertices ([v0; v1; v2] ++ replicas 3 [v0; v1; v2]) m).
Proof.
  intros S0 S1 S2 H0 H1 H2. unfold parse_face.
  rewrite S0, S1, S2. cbn [mbind comp_bind for_each].
  rewrite H0, H1, H2. cbn [mbind comp_bind].
  rewrite generateOffsetVectors_3. cbn [mbind comp_bind].
  rewrite (replication_loop _ _ _ _ _ _ _ _ _ H0 H1 H2).
  by rewrite replicas_offsets, push_vertices_app.
Qed.

Lemma token_ok_corner t token :
  token_ok t token = true →
  ∃ c v, sscanf_ddd token = Ok c ∧ corner_vertex t c = Ok v.
Proof.
  unfold token_ok. destruct (sscanf_ddd token) as [c|]; [|done].
  intros [v Hv]%corner_ok_vertex. eauto.
Qed.

Lemma length_replicas n (base : list Vertex) :
  length (replicas n base) = (length (offset_triples n) * length base)%nat.
Proof.
  unfold replicas. induction (offset_triples n) as [|o l IH]; [done|].
  cbn [mbind list_bind]. rewrite length_app, length_fmap. simpl. by rewrite <- IH.
Qed.

(** ** Counting the offsets *)

Lemma filter_list_bind {A B : Type} (P : B → Prop) `{!∀ b, Decision (P b)}
    (g : A → list B) (l : list A) :
  filter P (l ≫= g) = l ≫= (λ a, filter P (g a)).
Proof.
  induction l as [|a l IH]; [done|].
  rewrite !bind_cons, filter_app. by rewrite IH.
Qed.

Lemma length_list_bind_uniform {A B : Type} (g : A → list B) (l : list A) k :
  (∀ a, length (g a) = k) → length (l ≫= g) = (length l * k)%nat.
Proof.
  intros Hk. induction l as [|a l IH]; [done|].
  rewrite bind_cons, length_app, Hk, IH. simpl. lia.
Qed.

Lemma length_filter_remove_one {A : Type} `{!EqDecision A} (l : list A) (a : A) :
  NoDup l → a ∈ l → S (length (filter (λ b, b ≠ a) l)) = length l.
Proof.
  induction 1 as [|b l Hb Hnd IH]; [by intros ?%elem_of_nil|].
  intros [->|Hin]%elem_of_cons.
  - rewrite filter_cons_False by (intros Hne; by apply Hne). f_equal.
    clear IH. induction l as [|c l IHl]; [done|].
    apply not_elem_of_cons in Hb as [Hac Hb]. apply NoDup_cons in Hnd as [_ Hnd].
    rewrite filter_cons_True by done. simpl. f_equal. by apply IHl.
  - assert (b ≠ a) by (intros ->; done).
    rewrite filter_cons_True by done. simpl. f_equal. by apply IH.
Qed.

Lemma offset_triples_filter n :
  offset_triples n = filter (λ p, p ≠ (0, 0, 0)) (all_triples n).
Proof.
  unfold offset_triples, all_triples.
  rewrite filter_list_bind. apply list_bind_ext; [intros x|done].
  rewrite filter_list_bind. apply list_bind_ext; [intros y|done].
  rewrite filter_list_bind. apply list_bind_ext; [intros z|done].
  destruct (Z.eqb_spec x 0) as [->|Hx]; destruct (Z.eqb_spec y 0) as [->|Hy];
    destruct (Z.eqb_spec z 0) as [->|Hz]; simpl;
    first [ by rewrite filter_cons_False by (intros Hne; by apply Hne)
          | by rewrite filter_cons_True by congruence ].
Qed.

Lemma elem_of_all_triples n x y z :
  (x, y, z) ∈ all_triples n ↔ (- n ≤ x ≤ n) ∧ (- n ≤ y ≤ n) ∧ (- n ≤ z ≤ n).
Proof.
  unfold all_triples. rewrite list_elem_of_bind. split.
  - intros (x' & Hin & Hx%elem_of_int_range).
    apply list_elem_of_bind in Hin as (y' & Hin & Hy%elem_of_int_range).
    apply list_elem_of_bind in Hin as (z' & Hin & Hz%elem_of_int_range).
    apply list_elem_of_singleton in Hin as [= -> -> ->]. done.
  - intros (Hx & Hy & Hz). exists x. split; [|by apply elem_of_int_range].
    apply list_elem_of_bind. exists y. split; [|by apply elem_of_int_range].
    apply list_elem_of_bind. exists z. split; [|by apply elem_of_int_range].
    by apply list_elem_of_singleton.
Qed.

Lemma NoDup_all_triples n : NoDup (all_triples n).
Proof.
  unfold all_triples. apply NoDup_bind; [| |apply NoDup_int_range].
  { intros x1 x2 [[a b] c] _ _ H1 H2.
    apply list_elem_of_bind in H1 as (? & H1 & _).
    apply list_elem_of_bind in H1 as (? & H1 & _).
    apply list_elem_of_singleton in H1 as [= -> _ _].
    apply list_elem_of_bind in H2 as (? & H2 & _).
    apply list_elem_of_bind in H2 as (? & H2 & _).
    by apply list_elem_of_singleton in H2 as [= -> _ _]. }
  intros x _. apply NoDup_bind; [| |apply NoDup_int_range].
  { intros y1 y2 [[a b] c] _ _ H1 H2.
    apply list_elem_of_bind in H1 as (? & H1 & _).
    apply list_elem_of_singleton in H1 as [= _ -> _].
    apply list_elem_of_bind in H2 as (? & H2 & _).
    by apply list_elem_of_singleton in H2 as [= _ -> _]. }
  intros y _. apply NoDup_bind; [| |apply NoDup_int_range].
  { intros z1 z2 [[a b] c] _ _ H1 H2.
    apply list_elem_of_singleton in H1 as [= _ _ ->].
    by apply list_elem_of_singleton in H2 as [= _ _ ->]. }
  intros z _. apply NoDup_singleton.
Qed.

Lemma length_all_triples n :
  0 ≤ n → Z.of_nat (length (all_triples n)) = (2 * n + 1) ^ 3.
Proof.
  intros Hn. unfold all_triples.
  rewrite (length_list_bind_uniform _ _
             (Z.to_nat (2 * n + 1) * Z.to_nat (2 * n + 1))%nat).
  - rewrite length_int_range. replace (n - - n + 1) with (2 * n + 1) by lia. nia.
  - intros x. rewrite (length_list_bind_uniform _ _ (Z.to_nat (2 * n + 1))).
    + rewrite length_int_range. by replace (n - - n + 1) with (2 * n + 1) by lia.
    + intros y. rewrite (length_list_bind_uniform _ _ 1%nat) by done.
      rewrite length_int_range. replace (n - - n + 1) with (2 * n + 1) by lia. lia.
Qed.



Lemma length_offset_triples n :
  0 ≤ n → Z.of_nat (length (offset_triples n)) = (2 * n + 1) ^ 3 - 1.
Proof.
  intros Hn. rewrite <- (length_all_triples n Hn), offset_triples_filter.
  rewrite <- (length_filter_remove_one (all_triples n) (0, 0, 0)).
  - lia.
  - apply NoDup_all_triples.
  - apply elem_of_all_triples. lia.
Qed.

(** ** The parser *)

Lemma appended_refl m : appended [] m m.
Proof. unfold appended. simpl. by rewrite !app_nil_r. Qed.

Lemma appended_trans vs1 vs2 m1 m2 m3 :
  appended vs1 m1 m2 → appended vs2 m2 m3 → appended (vs1 ++ vs2) m1 m3.
Proof.
  intros (Hv1 & Hi1 & Ho1 & Hp1 & Hg1) (Hv2 & Hi2 & Ho2 & Hp2 & Hg2).
  unfold appended. rewrite Hv2, Hi2, Ho2, Hp2, Hg2, Hv1, Hi1, Ho1, Hp1, Hg1.
  rewrite !length_app, seq_app, fmap_app, <- !app_assoc. done.
Qed.

Lemma appended_push_vertices vs m : appended vs m (push_vertices vs m).
Proof.
  unfold appended.
  by rewrite push_vertices_vertices, push_vertices_indices, push_vertices_oriIndices,
    push_vertices_optiIndices, push_vertices_gl_buffers.
Qed.

Lemma LoadMaterials_appended fs path w :
  appended [] (objModel w) (objModel (LoadMaterials fs path w)) ∧
  cout (LoadMaterials fs path w) = cout w.
Proof.
  unfold LoadMaterials. destruct (mtl_files fs path); simpl.
  - split; [|done]. unfold appended. simpl. by rewrite !app_nil_r.
  - split; [apply appended_refl|done].
Qed.

Lemma length_face_vertices (v0 v1 v2 : Vertex) :
  length ([v0; v1; v2] ++ replicas 3 [v0; v1; v2]) = vertices_per_face.
Proof.
  rewrite length_app, length_replicas. simpl.
  pose proof (length_offset_triples 3 ltac:(lia)) as Hlen.
  unfold vertices_per_face. lia.
Qed.

Lemma parse_face_inv vertex1 vertex2 vertex3 t m m' :
  parse_face vertex1 vertex2 vertex3 t m = Ok m' →
  ∃ c0 c1 c2 v0 v1 v2,
    sscanf_ddd vertex1 = Ok c0 ∧ sscanf_ddd vertex2 = Ok c1 ∧ sscanf_ddd vertex3 = Ok c2 ∧
    corner_vertex t c0 = Ok v0 ∧ corner_vertex t c1 = Ok v1 ∧ corner_vertex t c2 = Ok v2 ∧
    m' = push_vertices ([v0; v1; v2] ++ replicas 3 [v0; v1; v2]) m.
Proof.
  intros Hp.
  destruct (sscanf_ddd vertex1) as [c0|] eqn:S0;
    [|by unfold parse_face in Hp; rewrite S0 in Hp].
  destruct (sscanf_ddd vertex2) as [c1|] eqn:S1;
    [|by unfold parse_face in Hp; rewrite S0, S1 in Hp].
  destruct (sscanf_ddd vertex3) as [c2|] eqn:S2;
    [|by unfold parse_face in Hp; rewrite S0, S1, S2 in Hp].
  destruct (corner_vertex t c0) as [v0|] eqn:H0;
    [|by unfold parse_face in Hp; rewrite S0, S1, S2 in Hp;
         cbn [mbind comp_bind for_each] in Hp; rewrite H0 in Hp].
  destruct (corner_vertex t c1) as [v1|] eqn:H1;
    [|by unfold parse_face in Hp; rewrite S0, S1, S2 in Hp;
         cbn [mbind comp_bind for_each] in Hp; rewrite H0, H1 in Hp].
  destruct (corner_vertex t c2) as [v2|] eqn:H2;
    [|by unfold parse_face in Hp; rewrite S0, S1, S2 in Hp;
         cbn [mbind comp_bind for_each] in Hp; rewrite H0, H1, H2 in Hp].
  rewrite (parse_face_ok _ _ _ _ _ _ _ _ _ _ _ S0 S1 S2 H0 H1 H2) in Hp.
  injection Hp as <-. by exists c0, c1, c2, v0, v1, v2.
Qed.

Lemma parse_line_inv fs path line t w t' w' :
  parse_line fs path line (t, w) = Ok (t', w') →
  t' = temps_after line t ∧ cout w' = cout w ∧
  ∃ vs, appended vs (objModel w) (objModel w') ∧
        length vs = (if is_face line then vertices_per_face else 0%nat).
Proof.
  destruct line as [mtl|mat|v|vt|vn|vertex1 vertex2 vertex3|]; simpl.
  - intros [= <- <-]. destruct (LoadMaterials_appended fs
      (String.append (directory_of path) mtl) w) as [Ha Hc].
    split; [done|]. split; [done|]. by exists [].
  - intros [= <- <-]. do 2 (split; [done|]). exists []. split; [apply appended_refl|done].
  - intros [= <- <-]. do 2 (split; [done|]). exists []. split; [apply appended_refl|done].
  - intros [= <- <-]. do 2 (split; [done|]). exists []. split; [apply appended_refl|done].
  - intros [= <- <-]. do 2 (split; [done|]). exists []. split; [apply appended_refl|done].
  - destruct (parse_face vertex1 vertex2 vertex3 t (objModel w)) as [m'|] eqn:Hp;
      simpl; [|done].
    intros [= <- <-]. do 2 (split; [done|]).
    apply parse_face_inv in Hp as (c0 & c1 & c2 & v0 & v1 & v2 & _ & _ & _ & _ & _ & _ & ->).
    eexists. split; [apply appended_push_vertices|apply length_face_vertices].
  - intros [= <- <-]. do 2 (split; [done|]). exists []. split; [apply appended_refl|done].
Qed.

Lemma parse_lines_inv fs path lines t w t' w' :
  for_each (parse_line fs path) lines (t, w) = Ok (t', w') →
  t' = temps_after_all lines t ∧ cout w' = cout w ∧
  ∃ vs, appended vs (objModel w) (objModel w') ∧
        length vs = (length (filter (λ l, is_face l = true) lines) * vertices_per_face)%nat.
Proof.
  revert t w. induction lines as [|line lines IH]; intros t w; cbn [for_each temps_after_all].
  - intros [= <- <-]. do 2 (split; [done|]). exists [].
    split; [apply appended_refl|by rewrite filter_nil].
  - destruct (parse_line fs path line (t, w)) as [[t1 w1]|] eqn:Hl;
      cbn [mbind comp_bind]; [|done].
    intros Hrest. apply parse_line_inv in Hl as (-> & Hc1 & vs1 & Ha1 & Hn1).
    apply IH in Hrest as (-> & Hc2 & vs2 & Ha2 & Hn2).
    split; [done|]. split; [congruence|].
    exists (vs1 ++ vs2). split; [by eapply appended_trans|].
    rewrite length_app, Hn1, Hn2.
    destruct (is_face line) eqn:Hf.
    + rewrite filter_cons_True by done. simpl. lia.
    + rewrite filter_cons_False by (rewrite Hf; done). simpl. lia.
Qed.

Lemma parse_line_ok fs path line t w :
  faces_ok t [line] = true → ∃ w', parse_line fs path line (t, w) = Ok (temps_after line t, w').
Proof.
  destruct line as [mtl|mat|v|vt|vn|vertex1 vertex2 vertex3|]; simpl; eauto.
  rewrite andb_true_r. intros [[T1 T2]%andb_prop T3]%andb_prop.
  apply token_ok_corner in T1 as (c0 & v0 & S0 & H0).
  apply token_ok_corner in T2 as (c1 & v1 & S1 & H1).
  apply token_ok_corner in T3 as (c2 & v2 & S2 & H2).
  rewrite (parse_face_ok _ _ _ _ _ _ _ _ _ _ _ S0 S1 S2 H0 H1 H2). simpl. eauto.
Qed.

(** A file whose faces refer to attributes given before them is parsed to
    the end. *)
Lemma parse_lines_ok fs path lines t w :
  faces_ok t lines = true →
  ∃ w', for_each (parse_line fs path) lines (t, w) = Ok (temps_after_all lines t, w').
Proof.
  revert t w. induction lines as [|line lines IH]; intros t w; [simpl; eauto|].
  cbn [faces_ok]. intros [Hline Hrest]%andb_prop.
  destruct (parse_line_ok fs path line t w) as [w1 Hw1].
  { cbn [faces_ok]. by rewrite Hline. }
  cbn [for_each]. rewrite Hw1. cbn [mbind comp_bind].
  destruct (IH _ w1 Hrest) as [w' Hw']. exists w'. by rewrite Hw'.
Qed.

(** ** [optimizingIndices] *)

Lemma optimizingIndices_optiIndices m :
  optiIndices (optimizingIndices m) = resize (length (indices m)) 0 (optiIndices m).
Proof.
  unfold optimizingIndices. cbn [optiIndices].
  by rewrite forsyth_fills_buffer, length_replicate.
Qed.

Lemma optimizingIndices_indices m :
  indices (optimizingIndices m)
  = to_GLuint <$>
      forsythReorderIndices (replicate (length (indices m)) 0)
        (to_ForsythVertexIndexType <$> indices m)
        (to_int (Z.of_nat (length (indices m)) / 3))
        (to_int (Z.of_nat (length (vertices m)))).
Proof.
  unfold optimizingIndices, transform_into. cbn [indices].
  rewrite forsyth_fills_buffer, length_replicate, drop_all. apply app_nil_r.
Qed.

Lemma optimizingIndices_length m :
  length (indices (optimizingIndices m)) = length (indices m).
Proof.
  by rewrite optimizingIndices_indices, length_fmap, forsyth_fills_buffer, length_replicate.
Qed.

Lemma optimizingIndices_same_lengths m :
  length (oriIndices m) = length (indices m) → same_lengths (optimizingIndices m).
Proof.
  intros Ho. split.
  - by rewrite optimizingIndices_length.
  - by rewrite optimizingIndices_optiIndices, length_resize, optimizingIndices_length.
Qed.

(** ** [loadModelFromFile] *)

(** The object a load leaves behind, given the object at the end of the
    parsing loop. *)
Lemma loadModelFromFile_inv fs path w r w' :
  r = loadModelFromFile fs path w → state_after r = Some w' →
  (obj_files fs path = None ∧ r = Ret w' ∧
   w' = print_cerr [OStr "Failed to open the OBJ file: "; OStr path; OEndl] w)
  ∨ (∃ lines t1 w1,
       obj_files fs path = Some lines ∧ r = Ret w' ∧
       for_each (parse_line fs path) lines (Temps_empty, w) = Ok (t1, w1) ∧
       objModel w' = setupBuffers (optimizingIndices
                       (with_oriIndices (indices (objModel w1)) (objModel w1))) ∧
       cerr w' = cerr w1).
Proof.
  intros -> Hs. unfold loadModelFromFile in *.
  destruct (obj_files fs path) as [lines|]; simpl in Hs.
  - right. destruct (for_each (parse_line fs path) lines (Temps_empty, w))
      as [[t1 w1]|] eqn:Hp; simpl in Hs; [|done].
    injection Hs as <-. by exists lines, t1, w1.
  - left. injection Hs as <-. done.
Qed.

Lemma loadModelFromFile_same_lengths fs path w r w' :
  same_lengths (objModel w) →
  r = loadModelFromFile fs path w → state_after r = Some w' →
  same_lengths (objModel w').
Proof.
  intros Hw Hr Hs.
  destruct (loadModelFromFile_inv _ _ _ _ _ Hr Hs)
    as [(_ & _ & ->)|(lines & t1 & w1 & _ & _ & _ & -> & _)]; [done|].
  by apply (optimizingIndices_same_lengths (with_oriIndices _ _)).
Qed.

(** ** [setCacheMode] *)

Lemma print_indices_objModel steps i w w' :
  state_after (print_indices steps i w) = Some w' → objModel w' = objModel w.
Proof.
  revert i w. induction steps as [|steps IH]; intros i w; simpl.
  - by intros [= <-].
  - destruct (indices (objModel w) !! i) as [n|]; simpl.
    + intros Hs. by rewrite (IH _ _ Hs).
    + by intros [= <-].
Qed.

Lemma print_indices_Ret steps i w :
  (i + steps ≤ length (indices (objModel w)))%nat →
  ∃ w', print_indices steps i w = Ret w'.
Proof.
  revert i w. induction steps as [|steps IH]; intros i w Hle; simpl; [eauto|].
  destruct (lookup_lt_is_Some_2 (indices (objModel w)) i ltac:(lia)) as [n ->].
  apply IH. simpl. lia.
Qed.

Lemma print_indices_Throw steps i w :
  (i ≤ length (indices (objModel w)))%nat →
  (length (indices (objModel w)) < i + steps)%nat →
  ∃ w', print_indices steps i w = Throw out_of_range w'.
Proof.
  revert i w. induction steps as [|steps IH]; intros i w Hle Hlt; simpl; [lia|].
  destruct (indices (objModel w) !! i) as [n|] eqn:Hi; [|eauto].
  apply lookup_lt_Some in Hi. apply IH; simpl; lia.
Qed.

Lemma print_indices_cout steps i w w' :
  print_indices steps i w = Ret w' →
  cout w' = cout w ++ (n ← take steps (drop i (indices (objModel w))); [ONum n; OStr " "]).
Proof.
  revert i w. induction steps as [|steps IH]; intros i w; cbn [print_indices].
  - intros [= <-]. by rewrite take_0, app_nil_r.
  - destruct (indices (objModel w) !! i) as [n|] eqn:Hi; [|done].
    intros Hp%IH. rewrite Hp. cbn [print_cout cout objModel].
    rewrite (drop_S _ _ _ Hi). cbn [take]. rewrite bind_cons, <- app_assoc. done.
Qed.

Lemma print_indices_defined steps i w u : print_indices steps i w ≠ Undef u.
Proof.
  revert i w. induction steps as [|steps IH]; intros i w; simpl; [done|].
  destruct (indices (objModel w) !! i); [apply IH|done].
Qed.

Lemma setCacheMode_unfold mode draw w :
  setCacheMode mode draw w
  = match print_indices 20 0
            (print_cout [OStr "First twenty indices"; OEndl]
               (with_objModel (switched mode draw (objModel w)) w)) with
    | Ret w => Ret (print_cout [OEndl] w)
    | r => r
    end.
Proof. done. Qed.

(** Whether it returns or throws, a mode switch leaves the object that its
    branches selected. *)
Lemma setCacheMode_objModel mode draw w :
  ∃ w', state_after (setCacheMode mode draw w) = Some w' ∧
        objModel w' = switched mode draw (objModel w).
Proof.
  rewrite setCacheMode_unfold.
  set (w0 := print_cout _ _).
  pose proof (print_indices_objModel 20 0 w0) as Hobj.
  pose proof (print_indices_defined 20 0 w0) as Hdef.
  destruct (print_indices 20 0 w0) as [w1|e w1|u]; cbn [state_after] in *.
  - exists (print_cout [OEndl] w1). split; [done|]. simpl. by rewrite (Hobj w1).
  - exists w1. split; [done|]. by rewrite (Hobj w1).
  - by destruct (Hdef u).
Qed.

Lemma setCacheMode_Ret mode draw w :
  (20 ≤ length (indices (switched mode draw (objModel w))))%nat →
  ∃ w', setCacheMode mode draw w = Ret w' ∧
        objModel w' = switched mode draw (objModel w).
Proof.
  intros Hlen. destruct (setCacheMode_objModel mode draw w) as (w' & Hs & Hobj).
  rewrite setCacheMode_unfold in *.
  destruct (print_indices_Ret 20 0
              (print_cout [OStr "First twenty indices"; OEndl]
                 (with_objModel (switched mode draw (objModel w)) w))) as [w1 Hw1].
  { simpl. lia. }
  rewrite Hw1 in *. simpl in Hs. injection Hs as <-. eauto.
Qed.

Lemma setCacheMode_Throw mode draw w :
  (length (indices (switched mode draw (objModel w))) < 20)%nat →
  ∃ w', setCacheMode mode draw w = Throw out_of_range w' ∧
        objModel w' = switched mode draw (objModel w).
Proof.
  intros Hlen. destruct (setCacheMode_objModel mode draw w) as (w' & Hs & Hobj).
  rewrite setCacheMode_unfold in *.
  destruct (print_indices_Throw 20 0
              (print_cout [OStr "First twenty indices"; OEndl]
                 (with_objModel (switched mode draw (objModel w)) w))) as [w1 Hw1].
  { simpl. lia. }
  { simpl. lia. }
  rewrite Hw1 in *. simpl in Hs. injection Hs as <-. eauto.
Qed.

(** ** [std::shuffle] *)

Lemma length_iter_swap {A : Type} i j (l : list A) :
  length (iter_swap i j l) = length l.
Proof.
  unfold iter_swap. destruct (l !! i), (l !! j); try done.
  by rewrite !length_insert.
Qed.

Lemma insert_Permutation {A : Type} (l : list A) i a b :
  l !! i = Some a → a :: <[i := b]> l ≡ₚ b :: l.
Proof.
  revert i. induction l as [|c l IH]; intros [|i]; simpl; try done.
  - intros [= ->]. apply perm_swap.
  - intros Hi. rewrite (perm_swap c a), (IH i Hi). apply perm_swap.
Qed.

Lemma iter_swap_Permutation {A : Type} i j (l : list A) : iter_swap i j l ≡ₚ l.
Proof.
  unfold iter_swap.
  destruct (l !! i) as [a|] eqn:Hi; [|done].
  destruct (l !! j) as [b|] eqn:Hj; [|done].
  destruct (decide (i = j)) as [->|Hne].
  - assert (a = b) as -> by congruence.
    rewrite (list_insert_id l j b Hj). by rewrite (list_insert_id l j b Hj).
  - apply (Permutation_cons_inv (a := b)).
    rewrite (insert_Permutation (<[i := b]> l) j b a).
    + by apply insert_Permutation.
    + by rewrite list_lookup_insert_ne.
Qed.

Lemma shuffle_loop_Permutation {A : Type} draw steps i (l : list A) :
  shuffle_loop draw steps i l ≡ₚ l.
Proof.
  revert i l. induction steps as [|steps IH]; intros i l; simpl; [done|].
  by rewrite IH, iter_swap_Permutation.
Qed.

(** A shuffle rearranges: it neither adds, removes nor changes a value. *)
Lemma shuffle_Permutation {A : Type} draw (l : list A) : shuffle draw l ≡ₚ l.
Proof. apply shuffle_loop_Permutation. Qed.

Lemma length_shuffle {A : Type} draw (l : list A) : length (shuffle draw l) = length l.
Proof. by rewrite shuffle_Permutation. Qed.

(** ** Mode switches and the three sequences *)

Lemma switched_oriIndices mode draw m :
  oriIndices (switched mode draw m) = oriIndices m.
Proof. unfold switched. by repeat case_match. Qed.

Lemma switched_optiIndices mode draw m :
  optiIndices (switched mode draw m) = optiIndices m.
Proof. unfold switched. by repeat case_match. Qed.

Lemma switched_vertices mode draw m :
  vertices (switched mode draw m) = vertices m.
Proof. unfold switched. by repeat case_match. Qed.

Lemma switched_length mode draw m :
  same_lengths m → length (indices (switched mode draw m)) = length (indices m).
Proof.
  intros [Ho Hp]. unfold switched. repeat case_match; simpl; try done.
  apply length_shuffle.
Qed.

Lemma switched_same_lengths mode draw m :
  same_lengths m → same_lengths (switched mode draw m).
Proof.
  intros Hm. unfold same_lengths.
  rewrite switched_oriIndices, switched_optiIndices, switched_length by done.
  exact Hm.
Qed.

(** In every state of a run the three index sequences have one length. *)
Lemma reachable_same_lengths w : reachable w → same_lengths (objModel w).
Proof.
  induction 1 as [mat|fs path w r w' _ IH Hr Hs|mode draw w r w' _ IH Hr Hs].
  - done.
  - by eapply loadModelFromFile_same_lengths.
  - subst r. destruct (setCacheMode_objModel mode draw w) as (w1 & Hs1 & Hobj).
    rewrite Hs in Hs1. injection Hs1 as <-. rewrite Hobj.
    by apply switched_same_lengths.
Qed.

(** ** What a load computes *)

(** A load of a file that opens, seen from the caller: the vertices of
    the file are appended to those already there, [oriIndices] is the
    index sequence as it stood with one index appended per vertex,
    [optiIndices] is only resized, and the reordered sequence goes to
    [indices]. *)
Lemma loadModelFromFile_opened fs path lines w w' :
  obj_files fs path = Some lines →
  loadModelFromFile fs path w = Ret w' →
  ∃ vs,
    length vs = (length (filter (λ l, is_face l = true) lines) * vertices_per_face)%nat ∧
    vertices (objModel w') = vertices (objModel w) ++ vs ∧
    oriIndices (objModel w')
    = indices (objModel w)
        ++ (stored_index <$> seq (length (vertices (objModel w))) (length vs)) ∧
    optiIndices (objModel w')
    = resize (length (oriIndices (objModel w'))) 0 (optiIndices (objModel w)) ∧
    length (indices (objModel w')) = length (oriIndices (objModel w')).
Proof.
  intros Hopen Hload.
  destruct (loadModelFromFile_inv fs path w _ w' eq_refl) as
    [(Hnone & _)|(lines' & t1 & w1 & Hopen' & _ & Hparse & Hobj & _)];
    [by rewrite Hload|congruence|].
  assert (lines' = lines) as -> by congruence.
  apply parse_lines_inv in Hparse as (_ & _ & vs & (Hv & Hi & Ho & Hp & Hg) & Hlen).
  exists vs. rewrite Hobj. split; [done|].
  cbn [setupBuffers vertices oriIndices optiIndices indices].
  rewrite optimizingIndices_optiIndices, optimizingIndices_length.
  cbn [optimizingIndices with_oriIndices vertices oriIndices optiIndices indices].
  rewrite Hp. by rewrite <- Hi.
Qed.

(** After the first load into a default-constructed object,
    [optiIndices] is all zeros, whatever the file. *)
Lemma optiIndices_after_first_load fs path lines mat out err w' :
  obj_files fs path = Some lines →
  loadModelFromFile fs path
    {| objModel := OBJModel_default mat; cout := out; cerr := err |} = Ret w' →
  optiIndices (objModel w') = replicate (length (oriIndices (objModel w'))) 0.
Proof.
  intros Hopen Hload.
  destruct (loadModelFromFile_opened _ _ _ _ _ Hopen Hload) as (vs & _ & _ & _ & Hp & _).
  rewrite Hp. apply resize_nil.
Qed.

(** A file that opens and whose faces are in range is loaded. *)
Lemma loadModelFromFile_returns fs path lines w :
  obj_files fs path = Some lines → faces_ok Temps_empty lines = true →
  ∃ w', loadModelFromFile fs path w = Ret w'.
Proof.
  intros Hopen Hok. unfold loadModelFromFile. rewrite Hopen.
  destruct (parse_lines_ok fs path lines Temps_empty w Hok) as [w1 ->]. eauto.
Qed.

Lemma stored_index_small k : Z.of_nat k < UINT_MODULUS → stored_index k = Z.of_nat k.
Proof. intros Hk. apply to_GLuint_small. lia. Qed.

Lemma stored_indices_small n :
  Z.of_nat n ≤ UINT_MODULUS → stored_index <$> seq 0 n = Z.of_nat <$> seq 0 n.
Proof.
  intros Hn. apply list_fmap_ext. intros i k Hk%lookup_seq.
  apply stored_index_small. lia.
Qed.

Lemma faces_ok_app t l1 l2 :
  faces_ok t (l1 ++ l2) = faces_ok t l1 && faces_ok (temps_after_all l1 t) l2.
Proof.
  revert t. induction l1 as [|line l1 IH]; intros t; [done|].
  cbn [app faces_ok temps_after_all]. by rewrite IH, andb_assoc.
Qed.

Lemma faces_ok_replicate t k vertex1 vertex2 vertex3 :
  token_ok t vertex1 = true → token_ok t vertex2 = true → token_ok t vertex3 = true →
  faces_ok t (replicate k (L_f vertex1 vertex2 vertex3)) = true.
Proof.
  intros T1 T2 T3. induction k as [|k IH]; [done|].
  cbn [replicate faces_ok temps_after]. by rewrite T1, T2, T3, IH.
Qed.

Lemma count_faces_replicate k vertex1 vertex2 vertex3 :
  length (filter (λ l, is_face l = true) (replicate k (L_f vertex1 vertex2 vertex3))) = k.
Proof.
  induction k as [|k IH]; [done|].
  cbn [replicate]. rewrite filter_cons_True by done. simpl. by rewrite IH.
Qed.

(** ** Faces with a reference out of range *)

Lemma corner_vertex_full_cases t r :
  (∃ v, corner_vertex t (full_corner r) = Ok v ∧ ¬ corner_out_of_range t r)
  ∨ (corner_vertex t (full_corner r) = Ub OutOfBoundsRead ∧ corner_out_of_range t r).
Proof.
  destruct r as [[a b] c]. unfold full_corner, corner_vertex, corner_out_of_range.
  cbn [fst snd].
  destruct (fetch_Some_cases (temp_vertices t) a) as [(p & -> & Ha)|[-> Ha]];
    [|right; split; [done|by left]].
  destruct (fetch_Some_cases (temp_texCoords t) b) as [(uv & -> & Hb)|[-> Hb]];
    [|right; split; [done|by right; left]].
  destruct (fetch_Some_cases (temp_normals t) c) as [(n & -> & Hc)|[-> Hc]];
    [|right; split; [done|by right; right]].
  left. eexists. split; [done|]. tauto.
Qed.

Lemma parse_face_out_of_range vertex1 vertex2 vertex3 t m r0 r1 r2 :
  sscanf_ddd vertex1 = Ok (full_corner r0) →
  sscanf_ddd vertex2 = Ok (full_corner r1) →
  sscanf_ddd vertex3 = Ok (full_corner r2) →
  Exists (corner_out_of_range t) [r0; r1; r2] →
  parse_face vertex1 vertex2 vertex3 t m = Ub OutOfBoundsRead.
Proof.
  intros S0 S1 S2 Hex. unfold parse_face.
  rewrite S0, S1, S2. cbn [mbind comp_bind for_each].
  destruct (corner_vertex_full_cases t r0) as [(v0 & -> & N0)|[-> _]]; [|done].
  cbn [mbind comp_bind].
  destruct (corner_vertex_full_cases t r1) as [(v1 & -> & N1)|[-> _]]; [|done].
  cbn [mbind comp_bind].
  destruct (corner_vertex_full_cases t r2) as [(v2 & -> & N2)|[-> _]]; [|done].
  exfalso. rewrite !Exists_cons, Exists_nil in Hex. tauto.
Qed.

(** ** The face [f 1/1/1 2/2/2 3/3/3] after three attributes of each kind *)

Lemma parse_face123 fs filepath p0 p1 p2 uv0 uv1 uv2 n0 n1 n2 w :
  let t := {| temp_vertices := [p0; p1; p2];
              temp_texCoords := [uv0; uv1; uv2];
              temp_normals := [n0; n1; n2] |} in
  let base := [ {| position := p0; texCoords := uv0; normal := n0 |};
                {| position := p1; texCoords := uv1; normal := n1 |};
                {| position := p2; texCoords := uv2; normal := n2 |} ] in
  parse_line fs filepath (L_f "1/1/1" "2/2/2" "3/3/3") (t, w)
  = Ok (t, with_objModel (push_vertices (base ++ replicas 3 base) (objModel w)) w).
Proof.
  intros t base. cbn [parse_line].
  by rewrite (parse_face_ok "1/1/1" "2/2/2" "3/3/3" t (objModel w)
                (Some 1, Some 1, Some 1) (Some 2, Some 2, Some 2) (Some 3, Some 3, Some 3)
                {| position := p0; texCoords := uv0; normal := n0 |}
                {| position := p1; texCoords := uv1; normal := n1 |}
                {| position := p2; texCoords := uv2; normal := n2 |}).
Qed.

(** ** The sample files *)

Lemma wrapped_indices_not_identity n :
  UINT_MODULUS < Z.of_nat n → stored_index <$> seq 0 n ≠ Z.of_nat <$> seq 0 n.
Proof.
  intros Hn Heq.
  assert (0 < UINT_MODULUS) as Hpos by done.
  assert (∃ N, Z.of_nat N = UINT_MODULUS) as [N HN].
  { exists (Z.to_nat UINT_MODULUS). apply Z2Nat.id. lia. }
  apply (f_equal (λ l, l !! N)) in Heq.
  rewrite !list_lookup_fmap, lookup_seq_lt in Heq by lia.
  injection Heq as Heq. rewrite ?Nat.add_0_l in Heq.
  unfold stored_index, to_GLuint in Heq.
  rewrite HN, Z.mod_same in Heq by lia. lia.
Qed.

Lemma triangle_lines_faces_ok : faces_ok Temps_empty Sample.triangle_lines = true.
Proof. reflexivity. Qed.

Lemma other_triangle_lines_faces_ok :
  faces_ok Temps_empty Sample.other_triangle_lines = true.
Proof. reflexivity. Qed.

Lemma repeated_triangle_faces_ok k :
  faces_ok Temps_empty (Sample.repeated_triangle k) = true.
Proof.
  unfold Sample.repeated_triangle. rewrite faces_ok_app.
  apply andb_true_intro. split; [reflexivity|].
  by apply faces_ok_replicate.
Qed.

Lemma repeated_triangle_count k :
  length (filter (λ l, is_face l = true) (Sample.repeated_triangle k)) = k.
Proof.
  unfold Sample.repeated_triangle. rewrite filter_app, length_app.
  unfold Sample.face123. by rewrite count_faces_replicate.
Qed.

(** Enough faces for more than [2^32] vertices: the load returns and
    [oriIndices] is not the identity sequence. *)
Lemma repeated_triangle_wraps fs filepath k w :
  empty_mesh (objModel w) →
  obj_files fs filepath = Some (Sample.repeated_triangle k) →
  UINT_MODULUS < Z.of_nat (k * vertices_per_face) →
  ∃ w', loadModelFromFile fs filepath w = Ret w' ∧
        oriIndices (objModel w')
        ≠ Z.of_nat <$> seq 0 (length (vertices (objModel w'))).
Proof.
  intros [Hv0 Hi0] Hopen Hbig.
  destruct (loadModelFromFile_returns fs filepath _ w Hopen (repeated_triangle_faces_ok k))
    as [w' Hw'].
  exists w'. split; [done|].
  destruct (loadModelFromFile_opened _ _ _ _ _ Hopen Hw')
    as (vs & Hlen & Hv & Ho & _ & _).
  rewrite repeated_triangle_count in Hlen.
  rewrite Hv0 in Hv, Ho. rewrite Hi0 in Ho. cbn [app length] in Hv, Ho.
  rewrite Hv, Ho, Hlen. by apply wrapped_indices_not_identity.
Qed.

(** The triangle loaded into a default-constructed object. *)
Lemma load_triangle mat :
  ∃ w, loadModelFromFile Sample.disk "triangle.obj" (World_default mat) = Ret w ∧
       length (vertices (objModel w)) = 1029%nat ∧
       oriIndices (objModel w) = Z.of_nat <$> seq 0 1029 ∧
       optiIndices (objModel w) = replicate 1029 0 ∧
       length (indices (objModel w)) = 1029%nat.
Proof.
  destruct (loadModelFromFile_returns Sample.disk "triangle.obj" Sample.triangle_lines
              (World_default mat) eq_refl triangle_lines_faces_ok) as [w Hw].
  exists w. split; [done|].
  destruct (loadModelFromFile_opened Sample.disk "triangle.obj" Sample.triangle_lines
              _ _ eq_refl Hw) as (vs & Hlen & Hv & Ho & Hp & Hi).
  change (length (filter _ Sample.triangle_lines)) with 1%nat in Hlen.
  change (1 * vertices_per_face)%nat with 1029%nat in Hlen.
  rewrite Hlen in Ho. cbn [World_default OBJModel_default objModel vertices indices
    optiIndices app length] in Hv, Ho, Hp.
  rewrite stored_indices_small in Ho by (by vm_compute).
  rewrite Hi, Hp, Ho, Hv, length_fmap, length_seq, resize_nil.
  repeat split; first [exact Hlen | reflexivity].
Qed.

(** * The claims *)

(** C7. If the model file cannot be opened, [loadModelFromFile] logs the
    failure on the error stream and returns with the object (vertices,
    the three index sequences, material, buffers) exactly as it was. *)
Theorem load_failure_keeps_state fs filepath w :
  obj_files fs filepath = None →
  ∃ w', loadModelFromFile fs filepath w = Ret w' ∧
        objModel w' = objModel w ∧
        cout w' = cout w ∧
        cerr w' = cerr w ++ [OStr "Failed to open the OBJ file: "; OStr filepath; OEndl].
Proof.
  intros Hnone. unfold loadModelFromFile. rewrite Hnone. eauto.
Qed.

Lemma reachable_lengths w :
  reachable w → length (indices (objModel w)) = length (vertices (objModel w)).
Proof.
  intros Hreach.
  induction Hreach as [mat out err|fs path w r w' Hreach IH Hr Hs
                      |mode draw w r w' Hreach IH Hr Hs].
  - done.
  - destruct (loadModelFromFile_inv _ _ _ _ _ Hr Hs)
      as [(_ & _ & ->)|(lines & t1 & w1 & Hopen & Hret & _)]; [done|].
    subst r.
    destruct (loadModelFromFile_opened _ _ _ _ _ Hopen Hret)
      as (vs & Hlen & Hv & Ho & _ & Hi').
    by rewrite Hi', Ho, Hv, !length_app, length_fmap, length_seq, IH.
  - subst r. destruct (setCacheMode_objModel mode draw w) as (w1 & Hs1 & Hobj).
    rewrite Hs in Hs1. injection Hs1 as <-. rewrite Hobj.
    rewrite switched_vertices, switched_length by by apply reachable_same_lengths.
    done.
Qed.

(** [setCacheMode(3)] and then [setCacheMode(1)]: the active buffer is
    [oriIndices], and the rest of the object is as before. *)
Lemma shuffle_then_original w draw3 draw1 :
  ∃ w3 w1,
    state_after (setCacheMode 3 draw3 w) = Some w3 ∧
    state_after (setCacheMode 1 draw1 w3) = Some w1 ∧
    indices (objModel w1) = oriIndices (objModel w) ∧
    oriIndices (objModel w1) = oriIndices (objModel w) ∧
    vertices (objModel w1) = vertices (objModel w) ∧
    (same_lengths (objModel w) → (20 ≤ length (indices (objModel w)))%nat →
     setCacheMode 3 draw3 w = Ret w3 ∧ setCacheMode 1 draw1 w3 = Ret w1).
Proof.
  destruct (setCacheMode_objModel 3 draw3 w) as (w3 & Hs3 & Ho3).
  destruct (setCacheMode_objModel 1 draw1 w3) as (w1 & Hs1 & Ho1).
  exists w3, w1. split; [done|]. split; [done|].
  rewrite Ho1, Ho3. split; [done|]. split; [done|]. split; [done|].
  intros Hsame Hlen.
  destruct (setCacheMode_Ret 3 draw3 w) as (w3' & Hr3 & _).
  { rewrite switched_length by done. done. }
  rewrite Hr3 in Hs3. injection Hs3 as ->. split; [done|].
  destruct (setCacheMode_Ret 1 draw1 w3) as (w1' & Hr1 & _).
  { rewrite switched_length; rewrite Ho3.
    - by rewrite switched_length.
    - by apply switched_same_lengths. }
  rewrite Hr1 in Hs1. by injection Hs1 as ->.
Qed.

(** C8. After a load onto an object that holds a mesh already,
    [setCacheMode(1)] after [setCacheMode(3)] does not restore the parse
    order: the buffer it makes active is [oriIndices], which the load has
    set to the buffer that was active when the load began, followed by
    the indices of the new vertices. That is not the parse order of the
    mesh as a whole whenever the buffer active before the load was not
    (a shuffled one, say), and it is never the parse order of the new
    file alone. *)
Theorem original_after_reload fs filepath lines w w' draw3 draw1 :
  reachable w →
  obj_files fs filepath = Some lines →
  loadModelFromFile fs filepath w = Ret w' →
  ∃ w3 w1 n,
    state_after (setCacheMode 3 draw3 w') = Some w3 ∧
    state_after (setCacheMode 1 draw1 w3) = Some w1 ∧
    ((20 ≤ length (indices (objModel w')))%nat →
     setCacheMode 3 draw3 w' = Ret w3 ∧ setCacheMode 1 draw1 w3 = Ret w1) ∧
    n = (length (filter (λ l, is_face l = true) lines) * vertices_per_face)%nat ∧
    length (vertices (objModel w1)) = (length (vertices (objModel w)) + n)%nat ∧
    indices (objModel w1)
    = indices (objModel w)
        ++ (stored_index <$> seq (length (vertices (objModel w))) n) ∧
    (indices (objModel w) ≠ parse_order (length (vertices (objModel w))) →
     indices (objModel w1) ≠ parse_order (length (vertices (objModel w1)))) ∧
    ((0 < length (vertices (objModel w)))%nat →
     indices (objModel w1) ≠ parse_order n).
Proof.
  intros Hreach Hopen Hload.
  assert (reachable w') as Hreach'
    by (by apply (reach_load fs filepath w _ w' Hreach eq_refl); rewrite Hload).
  destruct (shuffle_then_original w' draw3 draw1)
    as (w3 & w1 & Hs3 & Hs1 & Hi & _ & Hv & Hret).
  destruct (loadModelFromFile_opened _ _ _ _ _ Hopen Hload)
    as (vs & Hn & Hv' & Ho' & _ & _).
  exists w3, w1, (length vs). split; [done|]. split; [done|].
  split; [intros Hlen; apply Hret; [by apply reachable_same_lengths|done]|].
  split; [done|].
  rewrite Hi, Hv, Hv', Ho', length_app. split; [done|]. split; [done|]. split.
  - intros Hne Heq. apply Hne. unfold parse_order in Heq |- *.
    rewrite seq_app, fmap_app in Heq.
    apply app_inj_1 in Heq as [Heq _]; [done|].
    by rewrite length_fmap, length_seq, reachable_lengths.
  - intros Hpos Heq. apply (f_equal length) in Heq. unfold parse_order in Heq.
    rewrite length_app, !length_fmap, !length_seq, reachable_lengths in Heq by done.
    lia.
Qed.

(** C10. Whatever the mode, [setCacheMode] goes on to read the first
    twenty entries of the active index buffer with [at]: on an object of a
    run whose buffer holds fewer than twenty indices, the default
    constructed one included, every call throws [out_of_range]; with
    twenty or more it returns, having printed the first twenty entries of
    the buffer it has made active. *)
Theorem setCacheMode_short_buffer_throws w :
  reachable w →
  ∀ mode draw,
    ((length (indices (objModel w)) < 20)%nat →
     ∃ w', setCacheMode mode draw w = Throw out_of_range w') ∧
    ((20 ≤ length (indices (objModel w)))%nat →
     ∃ w', setCacheMode mode draw w = Ret w' ∧
           cout w' = cout w ++ [OStr "First twenty indices"; OEndl]
                       ++ (n ← take 20 (indices (objModel w')); [ONum n; OStr " "])
                       ++ [OEndl]).
Proof.
  intros Hreach%reachable_same_lengths mode draw. split; intros Hlen.
  - destruct (setCacheMode_Throw mode draw w) as (w' & Hw' & _); [|eauto].
    by rewrite switched_length.
  - destruct (setCacheMode_Ret mode draw w) as (w' & Hw' & Hobj).
    { by rewrite switched_length. }
    exists w'. split; [done|].
    rewrite setCacheMode_unfold in Hw'.
    destruct (print_indices 20 0 _) as [w1| |] eqn:Hp; [|done..].
    injection Hw' as <-. apply print_indices_cout in Hp as Hc.
    apply (f_equal state_after) in Hp. apply print_indices_objModel in Hp.
    cbn [print_cout cout objModel with_objModel] in *.
    rewrite Hc, Hp, drop_0, <- !app_assoc. done.
Qed.


(** C3, as amended. After exactly three positions, texture coordinates
    and normals, on a mesh without vertices, the record
    [f 1/1/1 2/2/2 3/3/3] appends 343 triangles: first the triangle of the
    record, indices [0,1,2] on three fresh vertices whose attributes are
    positions 0..2, texture coordinates 0..2 and normals 0..2, then its
    342 translated copies, which take the indices 3..1028. *)
Theorem face_record_appends_triangle_and_copies
    fs filepath p0 p1 p2 uv0 uv1 uv2 n0 n1 n2 w :
  empty_mesh (objModel w) →
  let t := {| temp_vertices := [p0; p1; p2];
              temp_texCoords := [uv0; uv1; uv2];
              temp_normals := [n0; n1; n2] |} in
  let base := [ {| position := p0; texCoords := uv0; normal := n0 |};
                {| position := p1; texCoords := uv1; normal := n1 |};
                {| position := p2; texCoords := uv2; normal := n2 |} ] in
  ∃ w', parse_line fs filepath (L_f "1/1/1" "2/2/2" "3/3/3") (t, w) = Ok (t, w') ∧
        vertices (objModel w') = base ++ replicas 3 base ∧
        indices (objModel w') = [0; 1; 2] ++ (Z.of_nat <$> seq 3 (3 * 342)) ∧
        length (replicas 3 base) = (3 * 342)%nat.
Proof.
  intros [Hv Hi] t base. eexists. split; [apply parse_face123|].
  subst t base. cbn [objModel with_objModel].
  rewrite push_vertices_vertices, push_vertices_indices, Hv, Hi.
  pose proof (length_face_vertices
                {| position := p0; texCoords := uv0; normal := n0 |}
                {| position := p1; texCoords := uv1; normal := n1 |}
                {| position := p2; texCoords := uv2; normal := n2 |}) as Hlen.
  split; [done|]. split.
  - rewrite Hlen. cbn [app length]. unfold vertices_per_face.
    rewrite (stored_indices_small 1029) by (by vm_compute).
    change 1029%nat with (3 + 3 * 342)%nat. by rewrite seq_app, fmap_app.
  - rewrite length_app in Hlen. unfold vertices_per_face in Hlen.
    cbn [length] in Hlen. lia.
Qed.

(** C4, as amended. A face whose references are all read and one of
    which lies outside its list is not rejected: the lookup is made
    unguarded, the load ends in the out-of-bounds read and no error is
    surfaced to the caller. *)
Theorem out_of_range_face_reads_out_of_bounds
    fs filepath w before vertex1 vertex2 vertex3 rest t w1 r0 r1 r2 :
  obj_files fs filepath = Some (before ++ L_f vertex1 vertex2 vertex3 :: rest) →
  for_each (parse_line fs filepath) before (Temps_empty, w) = Ok (t, w1) →
  sscanf_ddd vertex1 = Ok (full_corner r0) →
  sscanf_ddd vertex2 = Ok (full_corner r1) →
  sscanf_ddd vertex3 = Ok (full_corner r2) →
  Exists (corner_out_of_range t) [r0; r1; r2] →
  loadModelFromFile fs filepath w = Undef OutOfBoundsRead ∧
  ¬ surfaces_error (loadModelFromFile fs filepath w).
Proof.
  intros Hopen Hbefore S0 S1 S2 Hex.
  assert (loadModelFromFile fs filepath w = Undef OutOfBoundsRead) as ->;
    [|split; [done|by intros []]].
  unfold loadModelFromFile. rewrite Hopen, for_each_app, Hbefore.
  cbn [mbind comp_bind for_each parse_line].
  by rewrite (parse_face_out_of_range _ _ _ _ _ _ _ _ S0 S1 S2 Hex).
Qed.


(** C1, checked on the code. After the sample triangle is loaded into a
    default-constructed object, [oriIndices] is [0..1028] while
    [optiIndices] is 1029 zeros: [optimizingIndices] resizes [optiIndices]
    and writes the reordered sequence to [indices]. The two are not
    permutations of one another, and after [setCacheMode(2)] neither are
    the active buffer and [oriIndices]. *)
Theorem optiIndices_not_a_permutation mat :
  ∃ w, loadModelFromFile Sample.disk "triangle.obj" (World_default mat) = Ret w ∧
       oriIndices (objModel w) = Z.of_nat <$> seq 0 1029 ∧
       optiIndices (objModel w) = replicate 1029 0 ∧
       ¬ (optiIndices (objModel w) ≡ₚ oriIndices (objModel w)) ∧
       ∀ draw, ∃ w2, setCacheMode 2 draw w = Ret w2 ∧
                     indices (objModel w2) = replicate 1029 0 ∧
                     ¬ (indices (objModel w2) ≡ₚ oriIndices (objModel w2)).
Proof.
  destruct (load_triangle mat) as (w & Hw & _ & Ho & Hp & _).
  assert (¬ (replicate 1029 0 ≡ₚ Z.of_nat <$> seq 0 1029)) as Hnot.
  { intros Hperm.
    assert (1 ∈ Z.of_nat <$> seq 0 1029) as Hin.
    { apply list_elem_of_fmap. exists 1%nat. split; [done|]. apply elem_of_seq. lia. }
    rewrite <- Hperm in Hin. by apply elem_of_replicate_inv in Hin. }
  exists w. split; [exact Hw|]. split; [exact Ho|]. split; [exact Hp|].
  split; [rewrite Hp, Ho; exact Hnot|].
  intros draw. destruct (setCacheMode_Ret 2 draw w) as (w2 & Hw2 & Hobj).
  { change (switched 2 draw (objModel w))
      with (with_indices (optiIndices (objModel w)) (objModel w)).
    cbn [with_indices indices]. rewrite Hp, length_replicate. lia. }
  exists w2. split; [exact Hw2|]. rewrite Hobj.
  change (switched 2 draw (objModel w))
    with (with_indices (optiIndices (objModel w)) (objModel w)).
  cbn [with_indices indices oriIndices]. rewrite Hp, Ho.
  split; [reflexivity|exact Hnot].
Qed.

(** C2, checked on the code. A second model loaded into the object that
    holds the first does not replace it: the vertices of the first stay in
    front of those of the second, [oriIndices] begins with the index buffer
    as it stood, and the vertex array differs from the one that the second
    file gives on its own. *)
Theorem reload_keeps_previous_model mat :
  ∃ w1 w2 w2',
    loadModelFromFile Sample.disk "triangle.obj" (World_default mat) = Ret w1 ∧
    loadModelFromFile Sample.disk "other.obj" w1 = Ret w2 ∧
    loadModelFromFile Sample.disk "other.obj" (World_default mat) = Ret w2' ∧
    length (vertices (objModel w2')) = 1029%nat ∧
    length (vertices (objModel w2)) = 2058%nat ∧
    take 1029 (vertices (objModel w2)) = vertices (objModel w1) ∧
    take 1029 (oriIndices (objModel w2)) = indices (objModel w1) ∧
    length (oriIndices (objModel w2)) = 2058%nat ∧
    vertices (objModel w2) ≠ vertices (objModel w2').
Proof.
  destruct (load_triangle mat) as (w1 & Hw1 & Hv1 & _ & _ & Hi1).
  destruct (loadModelFromFile_returns Sample.disk "other.obj" Sample.other_triangle_lines
              w1 eq_refl other_triangle_lines_faces_ok) as [w2 Hw2].
  destruct (loadModelFromFile_returns Sample.disk "other.obj" Sample.other_triangle_lines
              (World_default mat) eq_refl other_triangle_lines_faces_ok) as [w2' Hw2'].
  exists w1, w2, w2'. do 3 (split; [done|]).
  destruct (loadModelFromFile_opened Sample.disk "other.obj" Sample.other_triangle_lines
              _ _ eq_refl Hw2) as (vs & Hlen & Hv & Ho & _ & _).
  destruct (loadModelFromFile_opened Sample.disk "other.obj" Sample.other_triangle_lines
              _ _ eq_refl Hw2') as (vs' & Hlen' & Hv' & _ & _ & _).
  change (length (filter _ Sample.other_triangle_lines)) with 1%nat in Hlen, Hlen'.
  change (1 * vertices_per_face)%nat with 1029%nat in Hlen, Hlen'.
  cbn [World_default OBJModel_default objModel vertices app] in Hv'.
  assert (length (vertices (objModel w2')) = 1029%nat) as Hn' by (by rewrite Hv').
  assert (length (vertices (objModel w2)) = 2058%nat) as Hn
    by (by rewrite Hv, length_app, Hv1, Hlen).
  split; [done|]. split; [done|].
  split; [by rewrite Hv, take_app_length' by done|].
  split; [by rewrite Ho, take_app_length' by done|].
  split; [by rewrite Ho, length_app, length_fmap, length_seq, Hi1, Hlen|].
  intros Heq. rewrite Heq, Hn' in Hn. discriminate.
Qed.

(** C9, as amended. After a file has been parsed into an empty mesh,
    [oriIndices] holds, for each vertex in turn, its position reduced
    modulo [2^32]; for a mesh of at most [2^32] vertices that is the
    identity sequence [0, 1, ..., vertices.length - 1]: as many indices as
    vertices, every index in range, every vertex referenced by exactly one
    corner. *)
Theorem original_indices_are_positions fs filepath lines w w' :
  empty_mesh (objModel w) →
  obj_files fs filepath = Some lines →
  loadModelFromFile fs filepath w = Ret w' →
  let n := length (vertices (objModel w')) in
  oriIndices (objModel w') = stored_index <$> seq 0 n ∧
  length (oriIndices (objModel w')) = n ∧
  (Z.of_nat n ≤ UINT_MODULUS →
   oriIndices (objModel w') = Z.of_nat <$> seq 0 n ∧
   ∀ k, (k < n)%nat → oriIndices (objModel w') !! k = Some (Z.of_nat k)).
Proof.
  intros [Hv0 Hi0] Hopen Hload n.
  destruct (loadModelFromFile_opened _ _ _ _ _ Hopen Hload)
    as (vs & _ & Hv & Ho & _ & _).
  rewrite Hv0, Hi0 in *. cbn [app length] in Hv, Ho.
  assert (n = length vs) as Hn by (unfold n; by rewrite Hv).
  rewrite Ho, <- Hn. split; [done|].
  split; [by rewrite length_fmap, length_seq|].
  intros Hsmall. rewrite stored_indices_small by done. split; [done|].
  intros k Hk. by rewrite list_lookup_fmap, lookup_seq_lt.
Qed.

End Theory.

(** * The optimizer *)

Section Optimizer.
Context `{FO : FloatOps, TL : TextureLib}.
Import Forsyth.

Section Loop.
Variable p : tuning.
Variable triangles : list Z.

(** Step 4 leaves step 3 no choice. *)
Lemma next_unique s t1 t2 : next triangles s t1 → next triangles s t2 → t1 = t2.
Proof.
  intros (H1 & F1) (H2 & F2).
  pose proof (F1 t2 H2). pose proof (F2 t1 H1). lia.
Qed.

(** The loop has at most one output. *)
Lemma emits_unique s out1 out2 :
  emits p triangles s out1 → emits p triangles s out2 → out1 = out2.
Proof.
  intros H1. revert out2.
  induction H1 as [s Hnone|s t out Hnext _ IH]; intros out2 H2.
  - destruct H2 as [|s t out [[Hp _] _] _]; [done|]. by rewrite Hnone in Hp.
  - destruct H2 as [s Hnone|s t' out' Hnext' Hrest].
    + destruct Hnext as [[Hp _] _]. by rewrite Hnone in Hp.
    + assert (t' = t) as -> by by eapply next_unique.
      f_equal. by apply IH.
Qed.

Lemma select_from_first_best s t n best :
  first_best triangles s t best →
  first_best triangles s (t + n) (select_from triangles s t n best).
Proof.
  revert t best. induction n as [|n IH]; intros t best Hbest.
  - by rewrite Nat.add_0_r.
  - cbn [select_from]. replace (t + S n)%nat with (S t + n)%nat by lia.
    apply IH. destruct (is_pending triangles s t) eqn:Hp.
    + destruct best as [b|]; cbn [better first_best] in *.
      * destruct Hbest as (Hb & Hpb & Hmax & Hfirst).
        destruct (Z.ltb_spec (score s b) (score s t)) as [Hlt|Hge].
        -- split; [lia|]. split; [done|]. split.
           ++ intros t' Ht' Hp'. destruct (decide (t' = t)) as [->|Hne]; [lia|].
              pose proof (Hmax t' ltac:(lia) Hp'). lia.
           ++ intros t' Ht' Hp' Heq. destruct (decide (t' = t)) as [->|Hne]; [lia|].
              pose proof (Hmax t' ltac:(lia) Hp'). lia.
        -- split; [lia|]. split; [done|]. split.
           ++ intros t' Ht' Hp'. destruct (decide (t' = t)) as [->|Hne]; [lia|].
              apply Hmax; [lia|done].
           ++ intros t' Ht' Hp' Heq. destruct (decide (t' = t)) as [->|Hne]; [lia|].
              apply Hfirst; [lia|done..].
      * split; [lia|]. split; [done|]. split.
        -- intros t' Ht' Hp'. destruct (decide (t' = t)) as [->|Hne]; [lia|].
           by rewrite Hbest in Hp' by lia.
        -- intros t' Ht' Hp' _. destruct (decide (t' = t)) as [->|Hne]; [lia|].
           by rewrite Hbest in Hp' by lia.
    + destruct best as [b|]; cbn [first_best] in *.
      * destruct Hbest as (Hb & Hpb & Hmax & Hfirst).
        split; [lia|]. split; [done|]. split.
        -- intros t' Ht' Hp'. destruct (decide (t' = t)) as [->|Hne]; [congruence|].
           apply Hmax; [lia|done].
        -- intros t' Ht' Hp' Heq. destruct (decide (t' = t)) as [->|Hne]; [congruence|].
           apply Hfirst; [lia|done..].
      * intros t' Ht'. destruct (decide (t' = t)) as [->|Hne]; [done|].
        apply Hbest. lia.
Qed.

Lemma is_pending_lt s t :
  is_pending triangles s t = true → (t < triangle_count triangles)%nat.
Proof.
  unfold is_pending. intros [H _]%andb_prop. by apply bool_decide_eq_true in H.
Qed.

Lemma select_Some s t : select triangles s = Some t → next triangles s t.
Proof.
  intros Hsel.
  pose proof (select_from_first_best s 0 (triangle_count triangles) None) as Hfb.
  unfold select in Hsel. cbn [Nat.add] in Hfb. rewrite Hsel in Hfb.
  destruct Hfb as (Hb & Hpb & Hmax & Hfirst); [intros t' Ht'; lia|].
  assert (∀ t', is_pending triangles s t' = true → score s t' ≤ score s t) as Hhigh
    by (intros t' Hp'; apply Hmax; [by apply is_pending_lt in Hp'|done]).
  split; [done|]. intros t' [Hp' Hmax'].
  apply Hfirst; [by apply is_pending_lt in Hp'|done|].
  pose proof (Hhigh t' Hp'). pose proof (Hmax' t Hpb). lia.
Qed.

Lemma select_None s :
  select triangles s = None → ∀ t, is_pending triangles s t = false.
Proof.
  intros Hsel t.
  pose proof (select_from_first_best s 0 (triangle_count triangles) None) as Hfb.
  unfold select in Hsel. cbn [Nat.add] in Hfb. rewrite Hsel in Hfb.
  destruct (is_pending triangles s t) eqn:Hp; [|done].
  rewrite <- Hp. apply Hfb; [intros t' Ht'; lia|by apply is_pending_lt in Hp].
Qed.

(** As long as fewer triangles are emitted than there are, one is
    pending. *)
Lemma pending_exists s :
  (length (emitted s) < triangle_count triangles)%nat →
  ∃ t, is_pending triangles s t = true.
Proof.
  intros Hlen.
  destruct (decide (Forall (λ t, t ∈ emitted s) (seq 0 (triangle_count triangles))))
    as [Hall|Hex].
  - assert (seq 0 (triangle_count triangles) ⊆+ emitted s) as Hsub.
    { apply NoDup_submseteq; [apply NoDup_seq|]. by apply Forall_forall. }
    apply submseteq_length in Hsub. rewrite length_seq in Hsub. lia.
  - apply not_Forall_Exists in Hex; [|apply _].
    apply Exists_exists in Hex as (t & Ht%elem_of_seq & Hnot).
    exists t. unfold is_pending.
    rewrite !bool_decide_eq_true_2; [done|done|lia].
Qed.

(** The program computes an output of the loop. *)
Lemma run_emits fuel s :
  (length (emitted s) + fuel = triangle_count triangles)%nat →
  NoDup (emitted s) → Forall (λ t, t < triangle_count triangles)%nat (emitted s) →
  emits p triangles s (run p triangles fuel s).
Proof.
  revert s. induction fuel as [|fuel IH]; intros s Hlen Hnd Hbound.
  - cbn [run]. apply emits_done. intros t.
    destruct (is_pending triangles s t) eqn:Hp; [|done].
    unfold is_pending in Hp. apply andb_prop in Hp as [Hlt Hnot].
    apply bool_decide_eq_true in Hlt, Hnot.
    assert (emitted s ⊆+ seq 0 (triangle_count triangles)) as Hsub.
    { apply NoDup_submseteq; [done|]. intros t' Ht'. apply elem_of_seq.
      rewrite Forall_forall in Hbound. specialize (Hbound t' Ht'). lia. }
    apply submseteq_length_Permutation in Hsub; [|rewrite length_seq; lia].
    destruct Hnot. rewrite Hsub. apply elem_of_seq. lia.
  - cbn [run]. destruct (select triangles s) as [t|] eqn:Hsel.
    + pose proof (select_Some s t Hsel) as Hnext.
      apply emits_next; [done|]. destruct Hnext as ((Hp & _) & _).
      unfold is_pending in Hp. apply andb_prop in Hp as [Hlt Hnot].
      apply bool_decide_eq_true in Hlt, Hnot.
      apply IH; cbn [emit emitted].
      * rewrite length_app. cbn [length]. lia.
      * apply NoDup_app. split; [done|]. split; [|apply NoDup_singleton].
        intros t' Ht' ->%list_elem_of_singleton. done.
      * apply Forall_app. split; [done|]. by apply Forall_singleton.
    + destruct (pending_exists s ltac:(lia)) as [t Hp].
      by rewrite (select_None s Hsel t) in Hp.
Qed.

Lemma reorder_emits : emits p triangles (initial p triangles) (reorder p triangles).
Proof.
  apply run_emits; cbn [initial emitted length]; [lia|apply NoDup_nil_2|apply Forall_nil_2].
Qed.

(** For a triangle list within the vertex count the contract of section
    4.3 has exactly one output, which the program computes. *)
Lemma optimize_output_unique vertexCount out1 out2 :
  optimize_output p triangles vertexCount out1 →
  optimize_output p triangles vertexCount out2 → out1 = out2.
Proof. intros [_ H1] [_ H2]. by eapply emits_unique. Qed.

Lemma optimize_output_reorder vertexCount :
  Forall (λ v, 0 ≤ v < vertexCount) triangles →
  optimize_output p triangles vertexCount (reorder p triangles).
Proof. intros Hwf. split; [done|apply reorder_emits]. Qed.

End Loop.

(** C5. [optimizingIndices] is deterministic: two runs from states with
    the same index list and the same number of vertices, in each of which
    the library call follows section 4.3 of the specification (under the
    same score curve and cache size, and with the same index type), leave
    the same reordered sequence, which the code writes to [indices]; and
    the same [optiIndices] when they start from the same [optiIndices].
    What makes it so is step 4 of the algorithm, the tie-breaking by input
    order, by which the greedy loop has one output only; the code adds no
    input of its own. *)
Theorem optimizingIndices_deterministic (FL1 FL2 : ForsythLib) p m1 m2 :
  (∀ i, @to_ForsythVertexIndexType FL1 i = @to_ForsythVertexIndexType FL2 i) →
  follows_spec FL1 p m1 → follows_spec FL2 p m2 →
  indices m1 = indices m2 →
  length (vertices m1) = length (vertices m2) →
  indices (optimizingIndices (FL := FL1) m1) = indices (optimizingIndices (FL := FL2) m2) ∧
  (optiIndices m1 = optiIndices m2 →
   optiIndices (optimizingIndices (FL := FL1) m1)
   = optiIndices (optimizingIndices (FL := FL2) m2)).
Proof.
  intros Hconv (r1 & Hout1 & Hcall1) (r2 & Hout2 & Hcall2) Hi Hv. split.
  - rewrite !optimizingIndices_indices, Hcall1, Hcall2.
    assert (to_ForsythVertexIndexType (ForsythLib := FL1) <$> indices m1
            = to_ForsythVertexIndexType (ForsythLib := FL2) <$> indices m2) as Htmp.
    { rewrite Hi. by apply list_fmap_ext. }
    rewrite Htmp, Hi, Hv in Hout1.
    by rewrite (optimize_output_unique _ _ _ _ _ Hout1 Hout2), Hi.
  - intros Hp. by rewrite !optimizingIndices_optiIndices, Hi, Hp.
Qed.

End Optimizer.

(** * Instances of the claims *)

Section Instances.
Import Sample.
#[local] Existing Instances Zfloat path_textures keep_order_lib.

Lemma load_failure_keeps_state_witness :
  ∃ w', loadModelFromFile disk "missing.obj" loaded_world = Ret w' ∧
        objModel w' = objModel loaded_world ∧
        cout w' = cout loaded_world ∧
        cerr w' = cerr loaded_world
                  ++ [OStr "Failed to open the OBJ file: "; OStr "missing.obj"; OEndl].
Proof. exact (load_failure_keeps_state disk "missing.obj" loaded_world eq_refl). Defined.

Lemma reachable_loaded_world : reachable loaded_world.
Proof.
  apply (reach_load disk "triangle.obj" world0 _ _ (reach_default _ _ _) eq_refl).
  vm_compute. reflexivity.
Qed.

Lemma reachable_shuffled_world : reachable shuffled_world.
Proof.
  apply (reach_mode 3 draw0 loaded_world _ _ reachable_loaded_world eq_refl).
  unfold shuffled_world, after.
  destruct (setCacheMode_objModel 3 draw0 loaded_world) as (w1 & -> & _). done.
Qed.

Lemma reloaded_world_Ret :
  loadModelFromFile disk "other.obj" shuffled_world = Ret reloaded_world.
Proof.
  destruct (loadModelFromFile_returns disk "other.obj" other_triangle_lines
              shuffled_world eq_refl other_triangle_lines_faces_ok) as [w Hw].
  unfold reloaded_world, after. by rewrite Hw.
Qed.

Lemma shuffled_world_not_parse_order :
  indices (objModel shuffled_world)
  ≠ parse_order (length (vertices (objModel shuffled_world))).
Proof.
  intros Heq. apply (f_equal (λ l, l !! 0%nat)) in Heq.
  vm_compute in Heq. discriminate.
Qed.

Lemma shuffled_world_not_empty :
  (0 < length (vertices (objModel shuffled_world)))%nat.
Proof. vm_compute. lia. Qed.

Lemma original_after_reload_witness :
  ∃ w3 w1 n,
    state_after (setCacheMode 3 draw0 reloaded_world) = Some w3 ∧
    state_after (setCacheMode 1 draw0 w3) = Some w1 ∧
    indices (objModel w1)
    = indices (objModel shuffled_world)
        ++ (stored_index <$> seq (length (vertices (objModel shuffled_world))) n) ∧
    indices (objModel w1) ≠ parse_order (length (vertices (objModel w1))) ∧
    indices (objModel w1) ≠ parse_order n.
Proof.
  destruct (original_after_reload disk "other.obj" other_triangle_lines
              shuffled_world reloaded_world draw0 draw0
              reachable_shuffled_world eq_refl reloaded_world_Ret)
    as (w3 & w1 & n & Hs3 & Hs1 & _ & _ & _ & Hi & Hne & Hnew).
  exists w3, w1, n.
  exact (conj Hs3 (conj Hs1 (conj Hi
           (conj (Hne shuffled_world_not_parse_order)
                 (Hnew shuffled_world_not_empty))))).
Defined.

Lemma setCacheMode_short_buffer_throws_witness :
  ∃ w', setCacheMode 7 draw0 world0 = Throw out_of_range w'.
Proof.
  exact (proj1 (setCacheMode_short_buffer_throws world0 (reach_default _ _ _) 7 draw0)
           (Nat.lt_0_succ 19)).
Defined.

Lemma greedy_follows_spec : follows_spec greedy_lib tuning32 pair_mesh.
Proof.
  exists (Forsyth.reorder tuning32 [0; 1; 2; 3; 4; 5]). split; [|reflexivity].
  apply (optimize_output_reorder tuning32 [0; 1; 2; 3; 4; 5] 6).
  repeat first [apply Forall_nil_2 | apply Forall_cons_2; [lia|]].
Qed.

Lemma keep_order_follows_spec : follows_spec keep_order_lib tuning32 pair_mesh'.
Proof.
  exists (Forsyth.reorder tuning32 [0; 1; 2; 3; 4; 5]). split; [|reflexivity].
  apply (optimize_output_reorder tuning32 [0; 1; 2; 3; 4; 5] 6).
  repeat first [apply Forall_nil_2 | apply Forall_cons_2; [lia|]].
Qed.

(** Step 3 alone leaves a choice: before anything is emitted, each of
    two triangles that share no vertex is a highest-scoring one. *)
Lemma highest_is_not_unique :
  Forsyth.highest [0; 1; 2; 3; 4; 5] (Forsyth.initial tuning32 [0; 1; 2; 3; 4; 5]) 0 ∧
  Forsyth.highest [0; 1; 2; 3; 4; 5] (Forsyth.initial tuning32 [0; 1; 2; 3; 4; 5]) 1.
Proof.
  split; (split; [reflexivity|]); intros t' Hp%is_pending_lt;
    change (Forsyth.triangle_count [0; 1; 2; 3; 4; 5]) with 2%nat in Hp;
    by destruct t' as [|[|t']]; [..|lia].
Qed.

Lemma optimizingIndices_deterministic_witness :
  indices (optimizingIndices (FL := greedy_lib) pair_mesh)
  = indices (optimizingIndices (FL := keep_order_lib) pair_mesh') ∧
  optiIndices (optimizingIndices (FL := greedy_lib) pair_mesh)
  = optiIndices (optimizingIndices (FL := keep_order_lib) pair_mesh').
Proof.
  destruct (optimizingIndices_deterministic greedy_lib keep_order_lib tuning32
              pair_mesh pair_mesh' (λ _, eq_refl)
              greedy_follows_spec keep_order_follows_spec eq_refl eq_refl)
    as [Hi Hp].
  exact (conj Hi (Hp eq_refl)).
Defined.

Lemma face_record_appends_triangle_and_copies_witness :
  ∃ w', parse_line disk "triangle.obj" face123 (temps3, world0) = Ok (temps3, w') ∧
        take 3 (indices (objModel w')) = [0; 1; 2] ∧
        length (indices (objModel w')) = 1029%nat.
Proof.
  destruct (face_record_appends_triangle_and_copies disk "triangle.obj"
              (vec3_of_ints 0 0 0) (vec3_of_ints 1 0 0) (vec3_of_ints 0 1 0)
              (Vec2 (float_of_int 0) (float_of_int 0)) (Vec2 (float_of_int 1) (float_of_int 0))
              (Vec2 (float_of_int 0) (float_of_int 1))
              (vec3_of_ints 0 0 1) (vec3_of_ints 0 0 2) (vec3_of_ints 0 0 3)
              world0 (conj eq_refl eq_refl))
    as (w' & Hp & _ & Hi & _).
  exists w'. split; [exact Hp|]. rewrite Hi. split; reflexivity.
Defined.

(** C3, as stated, fails: after the record the index sequence is not
    [[0,1,2]]; the 342 copies of the triangle have been appended too. *)
Lemma face_record_one_triangle_counterexample :
  ¬ ∃ w', parse_line disk "triangle.obj" face123 (temps3, world0) = Ok (temps3, w') ∧
          indices (objModel w') = [0; 1; 2].
Proof.
  intros (w' & Hp & Hi).
  apply parse_line_inv in Hp as (_ & _ & vs & (_ & Hidx & _) & Hlen).
  rewrite Hidx in Hi. apply (f_equal length) in Hi.
  rewrite length_app, length_fmap, length_seq, Hlen in Hi.
  vm_compute in Hi. discriminate.
Qed.

Lemma out_of_range_face_reads_out_of_bounds_witness :
  loadModelFromFile disk "dangling.obj" world0 = Undef OutOfBoundsRead ∧
  ¬ surfaces_error (loadModelFromFile disk "dangling.obj" world0).
Proof.
  apply (out_of_range_face_reads_out_of_bounds disk "dangling.obj" world0
           [] "1/1/1" "2/2/2" "3/3/3" [] Temps_empty world0 (1, 1, 1) (2, 2, 2) (3, 3, 3));
    try reflexivity.
  apply Exists_cons_hd. left. unfold ref_out_of_range. simpl. lia.
Defined.

(** C4, as stated, fails: the load of a file whose only line is a face
    with nothing to refer to does not end in an error given to the caller
    but in the unguarded out-of-bounds read. *)
Lemma out_of_range_face_counterexample :
  ¬ surfaces_error (loadModelFromFile disk "dangling.obj" world0) ∧
  loadModelFromFile disk "dangling.obj" world0 = Undef OutOfBoundsRead.
Proof. split; [|reflexivity]. intros Herr. exact Herr. Qed.



Lemma original_indices_are_positions_witness :
  ∃ w', loadModelFromFile disk "triangle.obj" world0 = Ret w' ∧
        oriIndices (objModel w') = Z.of_nat <$> seq 0 (length (vertices (objModel w'))).
Proof.
  destruct (load_triangle (material (objModel world0))) as (w' & Hload & Hlen & _).
  exists w'. split; [exact Hload|].
  destruct (original_indices_are_positions disk "triangle.obj" triangle_lines
              world0 w' (conj eq_refl eq_refl) eq_refl Hload)
    as (_ & _ & Hid).
  apply Hid. rewrite Hlen. by vm_compute.
Defined.

(** C9, as stated, fails: with [many] faces the object holds more than
    [2^32] vertices and the index stored for the vertex at position [2^32]
    is [0]. *)
Lemma original_indices_identity_counterexample :
  ∃ w', loadModelFromFile disk "many.obj" world0 = Ret w' ∧
        oriIndices (objModel w')
        ≠ Z.of_nat <$> seq 0 (length (vertices (objModel w'))).
Proof.
  apply (repeated_triangle_wraps disk "many.obj" many world0 (conj eq_refl eq_refl) eq_refl).
  unfold many, vertices_per_face. change UINT_MODULUS with 4294967296. lia.
Qed.

End Instances.

(** * Further properties of the code *)

Section MoreTheory.
Context `{FO : FloatOps, TL : TextureLib, FL : ForsythLib}.

Lemma print_indices_cerr steps i w w' :
  state_after (print_indices steps i w) = Some w' → cerr w' = cerr w.
Proof.
  revert i w. induction steps as [|steps IH]; intros i w; cbn [print_indices].
  - by intros [= <-].
  - destruct (indices (objModel w) !! i) as [n|]; cbn [state_after].
    + intros Hs. by rewrite (IH _ _ Hs).
    + by intros [= <-].
Qed.

Lemma setCacheMode_cerr mode draw w w' :
  state_after (setCacheMode mode draw w) = Some w' → cerr w' = cerr w.
Proof.
  rewrite setCacheMode_unfold.
  set (w0 := print_cout _ _).
  pose proof (print_indices_cerr 20 0 w0) as Hc.
  destruct (print_indices 20 0 w0) as [w1|e w1|u]; cbn [state_after] in *.
  - intros [= <-]. cbn [print_cout cerr]. by rewrite (Hc w1).
  - intros [= <-]. by rewrite (Hc w1).
  - done.
Qed.

Lemma setCacheMode_state mode draw w w' :
  state_after (setCacheMode mode draw w) = Some w' →
  objModel w' = switched mode draw (objModel w).
Proof.
  intros Hs. destruct (setCacheMode_objModel mode draw w) as (w1 & Hs1 & Hobj).
  rewrite Hs in Hs1. by injection Hs1 as <-.
Qed.

Lemma switched_material mode draw m : material (switched mode draw m) = material m.
Proof. unfold switched. by repeat case_match. Qed.

Lemma switched_gl_buffers mode draw m : gl_buffers (switched mode draw m) = gl_buffers m.
Proof. unfold switched. by repeat case_match. Qed.

(** X1. In every state of a run the vertex array and the three index
    sequences have one and the same length, a multiple of 1029 (so of 3):
    each face line has appended 1029 vertices and as many indices, and
    nothing else changes a length. *)
Theorem reachable_sizes w :
  reachable w →
  length (indices (objModel w)) = length (vertices (objModel w)) ∧
  length (oriIndices (objModel w)) = length (vertices (objModel w)) ∧
  length (optiIndices (objModel w)) = length (vertices (objModel w)) ∧
  (vertices_per_face | length (vertices (objModel w)))%nat.
Proof.
  intros Hreach. pose proof (reachable_same_lengths w Hreach) as [Ho Hp].
  rewrite Ho, Hp.
  enough (length (indices (objModel w)) = length (vertices (objModel w)) ∧
          (vertices_per_face | length (vertices (objModel w)))%nat) as [Hi Hd]
    by (by rewrite Hi).
  clear Ho Hp.
  induction Hreach as [mat out err|fs path w r w' Hreach IH Hr Hs
                      |mode draw w r w' Hreach IH Hr Hs].
  - split; [done|]. exists 0%nat. done.
  - destruct IH as [Hi Hd].
    destruct (loadModelFromFile_inv _ _ _ _ _ Hr Hs)
      as [(_ & _ & ->)|(lines & t1 & w1 & Hopen & Hret & _)]; [done|].
    subst r.
    destruct (loadModelFromFile_opened _ _ _ _ _ Hopen Hret)
      as (vs & Hlen & Hv & Ho & _ & Hi').
    rewrite Hi', Ho, Hv, !length_app, length_fmap, length_seq, Hi.
    split; [done|]. apply Nat.divide_add_r; [done|].
    rewrite Hlen. by apply Nat.divide_factor_r.
  - destruct IH as [Hi Hd]. subst r. apply setCacheMode_state in Hs as ->.
    rewrite switched_vertices, switched_length by by apply reachable_same_lengths.
    done.
Qed.

(** X2. In every state of a run [optiIndices] holds nothing but zeros:
    it is only ever resized, never written. Hence whenever
    [setCacheMode(2)] is called the active index buffer becomes all zeros,
    whatever model was loaded. *)
Theorem reachable_optiIndices_zero w :
  reachable w →
  optiIndices (objModel w) = replicate (length (indices (objModel w))) 0 ∧
  ∀ draw w2, state_after (setCacheMode 2 draw w) = Some w2 →
             indices (objModel w2) = replicate (length (indices (objModel w))) 0.
Proof.
  intros Hreach.
  assert (optiIndices (objModel w) = replicate (length (indices (objModel w))) 0) as Hz.
  { induction Hreach as [mat out err|fs path w r w' Hreach IH Hr Hs
                        |mode draw w r w' Hreach IH Hr Hs].
    - done.
    - destruct (loadModelFromFile_inv _ _ _ _ _ Hr Hs)
        as [(_ & _ & ->)|(lines & t1 & w1 & Hopen & Hret & _)]; [done|].
      subst r.
      destruct (loadModelFromFile_opened _ _ _ _ _ Hopen Hret)
        as (vs & _ & _ & _ & Hp & Hi').
      by rewrite Hp, IH, resize_replicate, Hi'.
    - subst r. apply setCacheMode_state in Hs as ->.
      rewrite switched_optiIndices, switched_length by by apply reachable_same_lengths.
      done. }
  split; [done|]. intros draw w2 Hs. apply setCacheMode_state in Hs as ->.
  change (switched 2 draw (objModel w))
    with (with_indices (optiIndices (objModel w)) (objModel w)).
  done.
Qed.

(** X3. In every state of a run in which [setupBuffers] has run, the
    vertex buffer it uploaded is the current vertex array and the element
    buffer it uploaded has as many entries as [indices] has now; [render]
    issues exactly one [glDrawElements] call, and that call asks for
    exactly the number of elements that were uploaded. *)
Theorem reachable_gl_buffers `{TV : !TextureView} w vs es :
  reachable w →
  gl_buffers (objModel w) = Some (vs, es) →
  vs = vertices (objModel w) ∧
  length es = length (indices (objModel w)) ∧
  draw_counts (render (objModel w)) = [to_int (Z.of_nat (length es))] ∧
  glDrawElements (to_int (Z.of_nat (length es))) ∈ render (objModel w) ∧
  ∀ count, glDrawElements count ∈ render (objModel w) →
           count = to_int (Z.of_nat (length es)).
Proof.
  intros Hreach Hgl.
  assert (vs = vertices (objModel w) ∧ length es = length (indices (objModel w)))
    as [Hv Hi].
  { revert vs es Hgl.
    induction Hreach as [mat out err|fs path w r w' Hreach IH Hr Hs
                        |mode draw w r w' Hreach IH Hr Hs]; intros vs es Hgl.
    - done.
    - destruct (loadModelFromFile_inv _ _ _ _ _ Hr Hs)
        as [(_ & _ & ->)|(lines & t1 & w1 & _ & _ & _ & Hobj & _)];
        [by apply IH|].
      rewrite Hobj in Hgl |- *. cbn [setupBuffers gl_buffers vertices indices] in *.
      by injection Hgl as <- <-.
    - subst r. apply setCacheMode_state in Hs. rewrite Hs in Hgl |- *.
      rewrite switched_gl_buffers in Hgl.
      rewrite switched_vertices, switched_length by by apply reachable_same_lengths.
      by apply IH. }
  split; [done|]. split; [done|]. rewrite Hi. unfold render. split; [|split].
  - unfold draw_counts.
    by destruct (GetImage (map_kd _)), (GetImage (map_bump _)), (GetImage (map_ks _)).
  - rewrite !elem_of_app. do 4 right. apply list_elem_of_here.
  - intros count. rewrite !elem_of_app.
    intros [Hin|[Hin|[Hin|[Hin|Hin]]]].
    + by apply list_elem_of_singleton in Hin.
    + destruct (GetImage (map_kd _)); [|by apply elem_of_nil in Hin].
      apply elem_of_cons in Hin as [?|Hin]; [done|].
      by apply list_elem_of_singleton in Hin.
    + destruct (GetImage (map_bump _)); [|by apply elem_of_nil in Hin].
      apply elem_of_cons in Hin as [?|Hin]; [done|].
      by apply list_elem_of_singleton in Hin.
    + destruct (GetImage (map_ks _)); [|by apply elem_of_nil in Hin].
      apply elem_of_cons in Hin as [?|Hin]; [done|].
      by apply list_elem_of_singleton in Hin.
    + apply elem_of_cons in Hin as [[= ->]|Hin]; [done|].
      by apply list_elem_of_singleton in Hin.
Qed.

(** X4. Whatever the mode, and whether it returns or throws,
    [setCacheMode] changes nothing but the active index buffer and the
    output stream: vertices, [oriIndices], [optiIndices], the material and
    the uploaded buffers stay (the new order is never handed to the
    element buffer), nothing goes to the error stream, and for a mode
    other than 1, 2 and 3 the object is left as it was. *)
Theorem setCacheMode_frame mode draw w w' :
  state_after (setCacheMode mode draw w) = Some w' →
  vertices (objModel w') = vertices (objModel w) ∧
  oriIndices (objModel w') = oriIndices (objModel w) ∧
  optiIndices (objModel w') = optiIndices (objModel w) ∧
  material (objModel w') = material (objModel w) ∧
  gl_buffers (objModel w') = gl_buffers (objModel w) ∧
  cerr w' = cerr w ∧
  (mode ≠ 1 → mode ≠ 2 → mode ≠ 3 → objModel w' = objModel w).
Proof.
  intros Hs. pose proof (setCacheMode_cerr _ _ _ _ Hs) as Hc.
  apply setCacheMode_state in Hs as ->.
  rewrite switched_vertices, switched_oriIndices, switched_optiIndices,
    switched_material, switched_gl_buffers.
  do 6 (split; [done|]). intros H1 H2 H3. unfold switched.
  by rewrite !(proj2 (Z.eqb_neq _ _)).
Qed.

(** X5. [setCacheMode(3)] rearranges the buffer that is active when it is
    called: the new active buffer is a permutation of it, whether the
    call returns or throws. *)
Theorem setCacheMode_3_permutes draw w w' :
  state_after (setCacheMode 3 draw w) = Some w' →
  indices (objModel w') ≡ₚ indices (objModel w).
Proof.
  intros Hs. apply setCacheMode_state in Hs as ->.
  change (switched 3 draw (objModel w))
    with (with_indices (shuffle draw (indices (objModel w))) (objModel w)).
  apply shuffle_Permutation.
Qed.

(** ** Which files are loaded *)

Lemma fetch_Ok_inv {A : Type} (temp : list A) idx a :
  fetch temp idx = Ok a →
  ∃ r, idx = Some r ∧ temp !! Z.to_nat (to_GLuint (r - 1)) = Some a.
Proof.
  destruct idx as [r|]; [|done]. rewrite fetch_Some. unfold subscript.
  destruct (temp !! _) as [b|] eqn:Hb; [|done]. intros [= ->]. eauto.
Qed.

Lemma fetch_Ok_ref_ok {A : Type} (temp : list A) idx a :
  fetch temp idx = Ok a → ref_ok temp idx = true.
Proof.
  intros (r & -> & Hr)%fetch_Ok_inv. simpl.
  apply bool_decide_eq_true. by apply lookup_lt_Some in Hr.
Qed.

Lemma corner_vertex_Ok_inv t c v :
  corner_vertex t c = Ok v →
  corner_ok t c = true ∧ ∃ r, c = full_corner r ∧ selects t r v.
Proof.
  destruct c as [[a b] c]. unfold corner_vertex, corner_ok. cbn [fst snd].
  destruct (fetch (temp_vertices t) a) as [p|] eqn:Hp; [|done].
  destruct (fetch (temp_texCoords t) b) as [uv|] eqn:Huv; [|done].
  destruct (fetch (temp_normals t) c) as [n|] eqn:Hn; [|done].
  cbn [mbind comp_bind]. intros [= <-].
  rewrite (fetch_Ok_ref_ok _ _ _ Hp), (fetch_Ok_ref_ok _ _ _ Huv),
    (fetch_Ok_ref_ok _ _ _ Hn).
  split; [done|].
  apply fetch_Ok_inv in Hp as (ra & -> & Hp).
  apply fetch_Ok_inv in Huv as (rb & -> & Huv).
  apply fetch_Ok_inv in Hn as (rc & -> & Hn).
  by exists (ra, rb, rc).
Qed.

Lemma parse_face_Ok_token_ok vertex1 vertex2 vertex3 t m m' :
  parse_face vertex1 vertex2 vertex3 t m = Ok m' →
  token_ok t vertex1 = true ∧ token_ok t vertex2 = true ∧ token_ok t vertex3 = true.
Proof.
  intros (c0 & c1 & c2 & v0 & v1 & v2 & S0 & S1 & S2 & H0 & H1 & H2 & _)%parse_face_inv.
  unfold token_ok. rewrite S0, S1, S2.
  apply corner_vertex_Ok_inv in H0 as [-> _].
  apply corner_vertex_Ok_inv in H1 as [-> _].
  by apply corner_vertex_Ok_inv in H2 as [-> _].
Qed.

Lemma parse_lines_Ok_faces_ok fs path lines t w t' w' :
  for_each (parse_line fs path) lines (t, w) = Ok (t', w') → faces_ok t lines = true.
Proof.
  revert t w. induction lines as [|line lines IH]; intros t w; [done|].
  cbn [for_each faces_ok].
  destruct (parse_line fs path line (t, w)) as [[t1 w1]|] eqn:Hl;
    cbn [mbind comp_bind]; [|done].
  intros Hrest. pose proof Hl as (-> & _)%parse_line_inv.
  rewrite (IH _ _ Hrest), andb_true_r.
  destruct line as [| | | | |vertex1 vertex2 vertex3|]; try done.
  cbn [parse_line] in Hl.
  destruct (parse_face vertex1 vertex2 vertex3 t (objModel w)) as [m|] eqn:Hp; [|done].
  apply parse_face_Ok_token_ok in Hp as (-> & -> & ->). done.
Qed.

(** X6. A file that opens is loaded to the end exactly when every face
    line has three corner groups that [sscanf] reads in full and whose
    references lie within the attribute lists read so far; on every other
    file the load runs into undefined behaviour. It never throws. *)
Theorem loadModelFromFile_completes_iff fs filepath lines w :
  obj_files fs filepath = Some lines →
  (if faces_ok Temps_empty lines
   then ∃ w', loadModelFromFile fs filepath w = Ret w'
   else ∃ u, loadModelFromFile fs filepath w = Undef u) ∧
  ¬ surfaces_error (loadModelFromFile fs filepath w).
Proof.
  intros Hopen. split.
  - destruct (faces_ok Temps_empty lines) eqn:Hok.
    + by apply (loadModelFromFile_returns _ _ lines).
    + unfold loadModelFromFile. rewrite Hopen.
      destruct (for_each (parse_line fs filepath) lines (Temps_empty, w))
        as [[t1 w1]|u] eqn:Hp; [|eauto].
      apply parse_lines_Ok_faces_ok in Hp. congruence.
  - unfold loadModelFromFile. rewrite Hopen.
    destruct (for_each (parse_line fs filepath) lines (Temps_empty, w)) as [[t1 w1]|u];
      simpl; tauto.
Qed.

(** X7. The face branch looks the references up as written: when a face
    line is parsed, its three corner groups were read in full, the three
    vertices appended first are those that the references of the corners
    select (position, texture coordinate and normal at the subscripts
    reference minus one), and the copies follow. *)
Theorem parse_face_selects vertex1 vertex2 vertex3 t m m' :
  parse_face vertex1 vertex2 vertex3 t m = Ok m' →
  ∃ r0 r1 r2 v0 v1 v2,
    sscanf_ddd vertex1 = Ok (full_corner r0) ∧
    sscanf_ddd vertex2 = Ok (full_corner r1) ∧
    sscanf_ddd vertex3 = Ok (full_corner r2) ∧
    selects t r0 v0 ∧ selects t r1 v1 ∧ selects t r2 v2 ∧
    vertices m' = vertices m ++ [v0; v1; v2] ++ replicas 3 [v0; v1; v2].
Proof.
  intros (c0 & c1 & c2 & v0 & v1 & v2 & S0 & S1 & S2 & H0 & H1 & H2 & ->)%parse_face_inv.
  apply corner_vertex_Ok_inv in H0 as (_ & r0 & -> & H0).
  apply corner_vertex_Ok_inv in H1 as (_ & r1 & -> & H1).
  apply corner_vertex_Ok_inv in H2 as (_ & r2 & -> & H2).
  exists r0, r1, r2, v0, v1, v2. by rewrite push_vertices_vertices.
Qed.

(** ** Lines that change nothing *)

Lemma parse_line_mtl_ext fs fs' path line st :
  (∀ p, mtl_files fs' p = mtl_files fs p) →
  parse_line fs' path line st = parse_line fs path line st.
Proof.
  intros Hext. destruct st as [t w]. destruct line; try done.
  cbn [parse_line]. unfold LoadMaterials. by rewrite Hext.
Qed.

Lemma parse_lines_without_inert fs fs' path lines st :
  (∀ p, mtl_files fs' p = mtl_files fs p) →
  for_each (parse_line fs' path) (filter (λ l, is_inert l = false) lines) st
  = for_each (parse_line fs path) lines st.
Proof.
  intros Hext. revert st. induction lines as [|line lines IH]; intros st; [done|].
  destruct (is_inert line) eqn:Hi.
  - rewrite filter_cons_False by (by rewrite Hi). rewrite IH.
    destruct st as [t w]. by destruct line.
  - rewrite filter_cons_True by done. cbn [for_each].
    rewrite (parse_line_mtl_ext fs fs') by done.
    destruct (parse_line fs path line st) as [st1|]; cbn [mbind comp_bind]; [apply IH|done].
Qed.

(** X8. [usemtl] lines and lines with an unknown prefix have no effect
    on a load: the file without them gives the same outcome, object and
    streams included. *)
Theorem inert_lines_do_not_matter fs fs' filepath lines w :
  obj_files fs filepath = Some lines →
  obj_files fs' filepath = Some (filter (λ l, is_inert l = false) lines) →
  (∀ p, mtl_files fs' p = mtl_files fs p) →
  loadModelFromFile fs' filepath w = loadModelFromFile fs filepath w.
Proof.
  intros Hopen Hopen' Hext. unfold loadModelFromFile.
  by rewrite Hopen, Hopen', (parse_lines_without_inert fs fs').
Qed.

(** ** Material files *)

Lemma load_material_line_ke directory line mat :
  ke (load_material_line directory line mat) = ke mat.
Proof. destruct mat. by destruct line. Qed.

Lemma load_material_lines_ke directory lines mat :
  ke (foldl (λ mat line, load_material_line directory line mat) mat lines) = ke mat.
Proof.
  revert mat. induction lines as [|line lines IH]; intros mat; [done|].
  cbn [foldl]. by rewrite IH, load_material_line_ke.
Qed.

(** X9. [LoadMaterials] touches the material only, and never its
    emissive colour [ke] (no branch reads a [Ke] line); the geometry, the
    index sequences, the uploaded buffers and the output stream stay. When
    the file does not open, the material stays as a whole, one message goes
    to the error stream and the call returns. *)
Theorem LoadMaterials_frame fs mtlFilePath w :
  let w' := LoadMaterials fs mtlFilePath w in
  ke (material (objModel w')) = ke (material (objModel w)) ∧
  vertices (objModel w') = vertices (objModel w) ∧
  indices (objModel w') = indices (objModel w) ∧
  oriIndices (objModel w') = oriIndices (objModel w) ∧
  optiIndices (objModel w') = optiIndices (objModel w) ∧
  gl_buffers (objModel w') = gl_buffers (objModel w) ∧
  cout w' = cout w ∧
  (mtl_files fs mtlFilePath = None →
   objModel w' = objModel w ∧
   cerr w' = cerr w ++ [OStr "Could not open MTL file at "; OStr mtlFilePath; OEndl]) ∧
  (is_Some (mtl_files fs mtlFilePath) → cerr w' = cerr w).
Proof.
  intros w'. subst w'. unfold LoadMaterials.
  destruct (mtl_files fs mtlFilePath) as [lines|]; cbn.
  - rewrite load_material_lines_ke. do 7 (split; [done|]).
    split; [done|]. done.
  - do 7 (split; [done|]). split; [done|]. by intros [? ?].
Qed.

Lemma parse_lines_no_materials fs path lines t w t' w' :
  (∀ p, mtl_files fs p = None) →
  for_each (parse_line fs path) lines (t, w) = Ok (t', w') →
  material (objModel w') = material (objModel w) ∧
  cerr w' = cerr w ++ mtllib_messages path lines.
Proof.
  intros Hnone. revert t w. induction lines as [|line lines IH]; intros t w.
  - intros [= <- <-]. by rewrite app_nil_r.
  - cbn [for_each].
    destruct (parse_line fs path line (t, w)) as [[t1 w1]|] eqn:Hl;
      cbn [mbind comp_bind]; [|done].
    intros (Hm & Hc)%IH. rewrite Hm, Hc. unfold mtllib_messages.
    rewrite bind_cons, app_assoc.
    enough (material (objModel w1) = material (objModel w) ∧
            cerr w1 = cerr w ++ match line with
                                | L_mtllib mtlFileName =>
                                    [OStr "Could not open MTL file at ";
                                     OStr (String.append (directory_of path) mtlFileName);
                                     OEndl]
                                | _ => []
                                end) as [-> ->] by done.
    destruct line as [mtl| | | | |vertex1 vertex2 vertex3|]; cbn [parse_line] in Hl;
      try (injection Hl as <- <-; by rewrite app_nil_r).
    + injection Hl as <- <-. unfold LoadMaterials. by rewrite Hnone.
    + destruct (parse_face vertex1 vertex2 vertex3 t (objModel w)) as [m|] eqn:Hp; [|done].
      injection Hl as <- <-.
      apply parse_face_inv in Hp as (? & ? & ? & ? & ? & ? & _ & _ & _ & _ & _ & _ & ->).
      cbn [with_objModel objModel cerr].
      by rewrite push_vertices_material, app_nil_r.
Qed.

(** X10. Material files that cannot be opened do not stop a load: on a
    disk with no readable material file, a model whose faces are in range
    is loaded to the end, the material is left as it was, and the error
    stream receives one message per [mtllib] line, in order, with the path
    resolved in the directory of the model file. *)
Theorem missing_materials_are_not_fatal fs filepath lines w :
  (∀ p, mtl_files fs p = None) →
  obj_files fs filepath = Some lines →
  faces_ok Temps_empty lines = true →
  ∃ w', loadModelFromFile fs filepath w = Ret w' ∧
        material (objModel w') = material (objModel w) ∧
        cerr w' = cerr w ++ mtllib_messages filepath lines.
Proof.
  intros Hnone Hopen Hok.
  destruct (loadModelFromFile_returns fs filepath lines w Hopen Hok) as [w' Hw'].
  exists w'. split; [done|].
  destruct (loadModelFromFile_inv fs filepath w _ w' eq_refl)
    as [(Hno & _)|(lines' & t1 & w1 & Hopen' & _ & Hparse & Hobj & Hcerr)];
    [by rewrite Hw'|congruence|].
  assert (lines' = lines) as -> by congruence.
  apply (parse_lines_no_materials fs filepath lines _ _ _ _ Hnone) in Hparse as [Hm Hc].
  rewrite Hobj, Hcerr, <- Hc, <- Hm. done.
Qed.

(** ** The original order *)

Lemma mode_switches_frame w0 w :
  mode_switches w0 w →
  same_lengths (objModel w0) →
  vertices (objModel w) = vertices (objModel w0) ∧
  oriIndices (objModel w) = oriIndices (objModel w0) ∧
  length (indices (objModel w)) = length (indices (objModel w0)) ∧
  same_lengths (objModel w).
Proof.
  intros Hsw Hsame0.
  induction Hsw as [|mode draw w r w' _ IH Hr Hs]; [done|].
  destruct IH as (Hv & Ho & Hi & Hsame). subst r.
  destruct (setCacheMode_objModel mode draw w) as (w1 & Hs1 & Hobj).
  rewrite Hs in Hs1. injection Hs1 as <-. rewrite Hobj.
  rewrite switched_vertices, switched_oriIndices, switched_length by done.
  split; [done|]. split; [done|]. split; [done|]. by apply switched_same_lengths.
Qed.

(** X18. On a mesh loaded into a default-constructed object, after any
    sequence of mode switches, [setCacheMode(1)] after [setCacheMode(3)]
    makes the active buffer the parse order of the mesh, which for no
    more than [2^32] vertices is [0, 1, ..., n - 1]; with twenty vertices
    or more both calls return. *)
Theorem single_load_restores_parse_order fs filepath lines mat out err w0 w draw3 draw1 :
  obj_files fs filepath = Some lines →
  loadModelFromFile fs filepath
    {| objModel := OBJModel_default mat; cout := out; cerr := err |} = Ret w0 →
  mode_switches w0 w →
  ∃ w3 w1,
    state_after (setCacheMode 3 draw3 w) = Some w3 ∧
    state_after (setCacheMode 1 draw1 w3) = Some w1 ∧
    ((20 ≤ length (vertices (objModel w0)))%nat →
     setCacheMode 3 draw3 w = Ret w3 ∧ setCacheMode 1 draw1 w3 = Ret w1) ∧
    indices (objModel w1) = parse_order (length (vertices (objModel w1))) ∧
    (Z.of_nat (length (vertices (objModel w1))) ≤ UINT_MODULUS →
     indices (objModel w1) = Z.of_nat <$> seq 0 (length (vertices (objModel w1)))).
Proof.
  intros Hopen Hload Hsw.
  set (wd := {| objModel := OBJModel_default mat; cout := out; cerr := err |}) in *.
  assert (reachable w0) as Hreach0.
  { apply (reach_load fs filepath wd _ w0 (reach_default mat out err) eq_refl).
    by rewrite Hload. }
  pose proof (reachable_same_lengths w0 Hreach0) as Hsame0.
  destruct (mode_switches_frame w0 w Hsw Hsame0) as (Hv & Ho & Hi & Hsame).
  destruct (shuffle_then_original w draw3 draw1)
    as (w3 & w1 & Hs3 & Hs1 & Hi1 & _ & Hv1 & Hret).
  destruct (loadModelFromFile_opened _ _ _ _ _ Hopen Hload)
    as (vs & _ & Hv0 & Ho0 & _ & _).
  cbn [wd objModel OBJModel_default vertices indices app length] in Hv0, Ho0.
  exists w3, w1. split; [done|]. split; [done|]. split.
  { intros Hlen. apply Hret; [done|].
    by rewrite Hi, (reachable_lengths w0 Hreach0). }
  assert (indices (objModel w1) = parse_order (length (vertices (objModel w1)))) as Hpo.
  { by rewrite Hi1, Hv1, Ho, Hv, Ho0, Hv0. }
  split; [done|]. intros Hsmall. rewrite Hpo. by apply stored_indices_small.
Qed.

End MoreTheory.

(** * Properties of text handling *)

Section TextTheory.

Lemma string_app_cons x (a b : string) : String x a +:+ b = String x (a +:+ b).
Proof. reflexivity. Qed.

Lemma string_app_assoc (a b c : string) : (a +:+ b) +:+ c = a +:+ (b +:+ c).
Proof. induction a as [|x a IH]; [done|]. rewrite !string_app_cons. by rewrite IH. Qed.

Lemma string_app_nil_r (a : string) : a +:+ EmptyString = a.
Proof. induction a as [|x a IH]; [done|]. rewrite string_app_cons. by rewrite IH. Qed.

Lemma list_ascii_of_string_app (a b : string) :
  list_ascii_of_string (a +:+ b) = list_ascii_of_string a ++ list_ascii_of_string b.
Proof.
  induction a as [|x a IH]; [done|]. rewrite string_app_cons.
  cbn [list_ascii_of_string app]. by rewrite IH.
Qed.

(** ** [directory_of] *)

Lemma find_last_of_from_app a b pos found :
  find_last_of_from (a +:+ b) pos found
  = find_last_of_from b (pos + String.length a) (find_last_of_from a pos found).
Proof.
  revert pos found. induction a as [|x a IH]; intros pos found.
  - cbn [String.length find_last_of_from]. by rewrite Nat.add_0_r.
  - rewrite string_app_cons. cbn [String.length find_last_of_from].
    rewrite IH. f_equal. lia.
Qed.

Lemma find_last_of_from_no_separator s pos found :
  no_separator s = true → find_last_of_from s pos found = found.
Proof.
  revert pos found. induction s as [|x s IH]; intros pos found; [done|].
  cbn [no_separator find_last_of_from].
  intros [Hx Hs]%andb_prop. apply negb_true_iff in Hx. rewrite Hx. by apply IH.
Qed.

Lemma substring_prefix a b : substring 0 (String.length a) (a +:+ b) = a.
Proof.
  induction a as [|x a IH]; [by destruct b|].
  rewrite string_app_cons. cbn [String.length substring]. by rewrite IH.
Qed.

Lemma length_string_app_one a x :
  String.length (a +:+ String x EmptyString) = S (String.length a).
Proof.
  induction a as [|y a IH]; [done|].
  rewrite string_app_cons. cbn [String.length]. by rewrite IH.
Qed.

(** X11. [directory_of] keeps the path up to and including its last
    [/] or backslash: for a path made of [dir], a separator and a file name
    without separators it gives [dir] with the separator; for a path
    without any separator it gives the empty string, so that a material
    file named in a model is looked for in the directory of the model. *)
Theorem directory_of_last_separator dir sep name :
  is_separator sep = true → no_separator name = true →
  directory_of (dir +:+ String sep name) = dir +:+ String sep EmptyString ∧
  directory_of name = EmptyString.
Proof.
  intros Hsep Hname. unfold directory_of. split.
  - rewrite find_last_of_from_app. cbn [find_last_of_from]. rewrite Hsep.
    rewrite find_last_of_from_no_separator by done.
    assert (dir +:+ String sep name = (dir +:+ String sep EmptyString) +:+ name) as ->
      by (symmetry; apply string_app_assoc).
    assert ((0 + String.length dir + 1)%nat
            = String.length (dir +:+ String sep EmptyString)) as ->
      by (rewrite length_string_app_one; lia).
    apply substring_prefix.
  - rewrite find_last_of_from_no_separator by done. by destruct name.
Qed.

(** ** Decimal numerals and [sscanf] *)

Lemma digit_of_Some_not_special c k :
  digit_of c = Some k →
  is_space c = false ∧ is_minus c = false ∧ is_plus c = false.
Proof.
  unfold digit_of, is_space, is_minus, is_plus.
  destruct (48 <=? nat_of_ascii c)%nat eqn:H1; [|done].
  destruct (nat_of_ascii c <=? 57)%nat eqn:H2; [|done].
  apply Nat.leb_le in H1, H2. intros _.
  rewrite (proj2 (Nat.eqb_neq _ 32)), (proj2 (Nat.leb_gt _ 13)),
    (proj2 (Nat.eqb_neq _ 45)), (proj2 (Nat.eqb_neq _ 43)) by lia.
  by rewrite andb_false_r.
Qed.

Lemma scan_d_digit c tail k :
  digit_of c = Some k →
  scan_d (c :: tail)
  = Some ((scan_digits 0 (c :: tail)).1, (scan_digits 0 (c :: tail)).2).
Proof.
  intros Hk. destruct (digit_of_Some_not_special c k Hk) as (Hs & Hm & Hp).
  unfold scan_d. cbn [skip_space]. rewrite Hs, Hm, Hp, Hk.
  by destruct (scan_digits 0 (c :: tail)).
Qed.

Lemma scan_digits_stop acc rest :
  stops_scan rest → scan_digits acc rest = (acc, rest).
Proof. destruct rest as [|c rest]; [done|]. simpl. by intros ->. Qed.

Ltac eval_digit :=
  match goal with
  | |- context [digit_of ?c] =>
      let v := eval vm_compute in (digit_of c) in change (digit_of c) with v
  end.

Lemma scan_digits_uint_acc d (acc : positive) rest :
  stops_scan rest →
  scan_digits (Z.pos acc)
    (list_ascii_of_string (DecimalString.NilEmpty.string_of_uint d) ++ rest)
  = (Z.pos (Pos.of_uint_acc d acc), rest).
Proof.
  intros Hrest. revert acc.
  induction d as [|d IH|d IH|d IH|d IH|d IH|d IH|d IH|d IH|d IH|d IH]; intros acc;
    [by apply scan_digits_stop|..];
    cbn [DecimalString.NilEmpty.string_of_uint list_ascii_of_string app
         scan_digits Pos.of_uint_acc];
    eval_digit; cbv iota; rewrite <- IH; f_equal; lia.
Qed.

Lemma scan_digits_uint d rest :
  stops_scan rest →
  scan_digits 0 (list_ascii_of_string (DecimalString.NilEmpty.string_of_uint d) ++ rest)
  = (Z.of_N (N.of_uint d), rest).
Proof.
  intros Hrest. unfold N.of_uint.
  induction d as [|d IH|d IH|d IH|d IH|d IH|d IH|d IH|d IH|d IH|d IH];
    [by apply scan_digits_stop|..];
    cbn [DecimalString.NilEmpty.string_of_uint list_ascii_of_string app
         scan_digits Pos.of_uint];
    eval_digit; cbv iota;
    [exact IH|..];
    (match goal with
     | |- scan_digits ?z _ = _ =>
         let p := eval vm_compute in z in change z with p
     end);
    by rewrite scan_digits_uint_acc.
Qed.

Lemma decimal_head n rest :
  ∃ c tail k, list_ascii_of_string (decimal n) ++ rest = c :: tail ∧ digit_of c = Some k.
Proof. unfold decimal. destruct (N.to_uint n); by eexists _, _, _. Qed.

Lemma scan_digits_decimal n rest :
  stops_scan rest →
  scan_digits 0 (list_ascii_of_string (decimal n) ++ rest) = (Z.of_N n, rest).
Proof.
  intros Hrest. unfold decimal.
  rewrite <- (DecimalN.Unsigned.of_to n) at 2.
  destruct (N.to_uint n);
    [exact (scan_digits_uint (Decimal.D0 Decimal.Nil) rest Hrest)|..];
    match goal with
    | |- context [DecimalString.NilZero.string_of_uint ?d] =>
        exact (scan_digits_uint d rest Hrest)
    end.
Qed.

Lemma scan_d_decimal n rest :
  stops_scan rest →
  scan_d (list_ascii_of_string (decimal n) ++ rest) = Some (Z.of_N n, rest).
Proof.
  intros Hrest. destruct (decimal_head n rest) as (c & tail & k & Heq & Hk).
  rewrite Heq, (scan_d_digit c tail k Hk), <- Heq.
  by rewrite scan_digits_decimal.
Qed.

Lemma store_d_small n : Z.of_N n ≤ INT_MAX → store_d (Z.of_N n) = Ok (Z.of_N n).
Proof.
  intros Hn. unfold store_d, INT_MIN, INT_MAX in *.
  rewrite (proj2 (Z.leb_le _ _)) by lia. rewrite (proj2 (Z.leb_le _ _)) by lia.
  cbn [andb]. rewrite to_GLuint_small; [done|]. unfold UINT_MODULUS. lia.
Qed.

Lemma stops_scan_slash rest : stops_scan (list_ascii_of_string slash ++ rest).
Proof. reflexivity. Qed.

(** X12. [sscanf] with the format [%d/%d/%d] reads a corner group written
    [a/b/c] in decimal as the three numbers it denotes, whatever their
    number of digits, as long as each fits an [int]. *)
Theorem sscanf_reads_decimals a b c :
  Z.of_N a ≤ INT_MAX → Z.of_N b ≤ INT_MAX → Z.of_N c ≤ INT_MAX →
  sscanf_ddd (decimal a +:+ slash +:+ decimal b +:+ slash +:+ decimal c)
  = Ok (Some (Z.of_N a), Some (Z.of_N b), Some (Z.of_N c)).
Proof.
  intros Ha Hb Hc. unfold sscanf_ddd.
  rewrite !list_ascii_of_string_app.
  rewrite scan_d_decimal by apply stops_scan_slash.
  rewrite (store_d_small a Ha). cbn [mbind comp_bind].
  change (scan_slash (list_ascii_of_string slash ++ ?r)) with (Some r).
  cbv iota beta.
  rewrite scan_d_decimal by apply stops_scan_slash.
  rewrite (store_d_small b Hb). cbn [mbind comp_bind].
  change (scan_slash (list_ascii_of_string slash ++ ?r)) with (Some r).
  cbv iota beta.
  rewrite <- (app_nil_r (list_ascii_of_string (decimal c))).
  rewrite scan_d_decimal by done.
  by rewrite (store_d_small c Hc).
Qed.

(** X13. A corner group without a texture coordinate, [a//c], is not
    read in full: [sscanf] stops at the second [/] having stored the
    position reference only, and the face branch then reads the two
    locals it left unset. With the position reference in range and the
    other two groups read by [sscanf], the face ends in that read of an
    indeterminate value, whatever follows the [//]. *)
Theorem face_without_texture_coordinate
    `{FO : FloatOps, TL : TextureLib, FL : ForsythLib}
    a rest vertex2 vertex3 c1 c2 t m :
  Z.of_N a ≤ INT_MAX →
  ¬ ref_out_of_range (temp_vertices t) (Z.of_N a) →
  sscanf_ddd vertex2 = Ok c1 → sscanf_ddd vertex3 = Ok c2 →
  sscanf_ddd (decimal a +:+ double_slash +:+ rest) = Ok (Some (Z.of_N a), None, None) ∧
  parse_face (decimal a +:+ double_slash +:+ rest) vertex2 vertex3 t m
  = Ub IndeterminateRead.
Proof.
  intros Ha Hin S1 S2.
  assert (sscanf_ddd (decimal a +:+ double_slash +:+ rest)
          = Ok (Some (Z.of_N a), None, None)) as S0.
  { unfold sscanf_ddd. rewrite !list_ascii_of_string_app.
    rewrite scan_d_decimal by reflexivity.
    by rewrite (store_d_small a Ha). }
  split; [done|]. unfold parse_face. rewrite S0, S1, S2.
  cbn [mbind comp_bind for_each corner_vertex].
  destruct (fetch_Some_cases (temp_vertices t) (Z.of_N a)) as [(p & -> & _)|[_ Hout]];
    [done|by destruct Hin].
Qed.

(** ** [LoadShaderAsString] *)

Lemma is_newline_eq c : is_newline c = true → c = newline.
Proof.
  unfold is_newline, newline. intros Hc%Nat.eqb_eq.
  by rewrite <- Hc, ascii_nat_embedding.
Qed.

Lemma getlines_nil text : getlines text = [] → text = EmptyString.
Proof.
  destruct text as [|c rest]; [done|]. cbn [getlines].
  destruct (is_newline c); [done|]. by destruct (getlines rest).
Qed.

Lemma foldl_lines acc lines :
  foldl (λ result line, result +:+ (line +:+ String newline EmptyString)) acc lines
  = acc +:+ unlines lines.
Proof.
  revert acc. induction lines as [|line lines IH]; intros acc.
  - cbn. by rewrite string_app_nil_r.
  - cbn [foldl unlines foldr]. rewrite IH.
    rewrite !string_app_assoc. by rewrite string_app_cons.
Qed.

Lemma unlines_getlines text :
  unlines (getlines text)
  = match text with
    | EmptyString => EmptyString
    | _ => if ends_with_newline text then text else text +:+ String newline EmptyString
    end.
Proof.
  induction text as [|c rest IH]; [done|].
  cbn [getlines]. destruct (is_newline c) eqn:Hc.
  - apply is_newline_eq in Hc as ->.
    cbn [unlines foldr]. fold (unlines (getlines rest)). rewrite IH.
    destruct rest as [|c' rest']; [done|].
    change (ends_with_newline (String newline (String c' rest')))
      with (ends_with_newline (String c' rest')).
    by destruct (ends_with_newline (String c' rest')).
  - destruct (getlines rest) as [|line lines] eqn:Hl.
    + apply getlines_nil in Hl as ->. cbn. by rewrite Hc.
    + cbn [unlines foldr] in *. rewrite string_app_cons, IH.
      destruct rest as [|c' rest']; [done|].
      change (ends_with_newline (String c (String c' rest')))
        with (ends_with_newline (String c' rest')).
      by destruct (ends_with_newline (String c' rest')).
Qed.

(** X14. [LoadShaderAsString] gives the text of the file with a newline
    added at the end when the last line has none: a text that ends with a
    newline comes back as it is, an empty file gives the empty string, and
    so does a file that cannot be opened (no error is reported). *)
Theorem LoadShaderAsString_normalises text :
  LoadShaderAsString None = EmptyString ∧
  LoadShaderAsString (Some text)
  = match text with
    | EmptyString => EmptyString
    | _ => if ends_with_newline text then text else text +:+ String newline EmptyString
    end.
Proof.
  split; [done|]. unfold LoadShaderAsString.
  rewrite foldl_lines. apply unlines_getlines.
Qed.

End TextTheory.

(** * Properties of the frame loop *)

Section FrameTimesTheory.
Context `{DO : DoubleOps}.

Lemma Draw_frameTimes_full elapsed frameTimes :
  S (length frameTimes) = maxFrameSamples →
  Draw_frameTimes elapsed frameTimes
  = ([], Some (average_report (frameTimes ++ [elapsed]))).
Proof.
  intros Hlen. unfold Draw_frameTimes.
  rewrite length_app, Nat.add_1_r, Hlen, Nat.Div0.mod_same. cbn [Nat.eqb].
  unfold average_report. by rewrite length_app, Nat.add_1_r, Hlen.
Qed.

Lemma Draw_frameTimes_short elapsed frameTimes :
  (S (length frameTimes) < maxFrameSamples)%nat →
  Draw_frameTimes elapsed frameTimes = (frameTimes ++ [elapsed], None).
Proof.
  intros Hlen. unfold Draw_frameTimes.
  rewrite length_app, Nat.add_1_r, Nat.mod_small by done. done.
Qed.

Lemma frame_window_0 (window times : list double) :
  length window = maxFrameSamples → frame_window (window ++ times) 0 = window.
Proof.
  intros Hlen. unfold frame_window. rewrite Nat.mul_0_r, drop_0.
  by rewrite take_app_length' by done.
Qed.

Lemma frame_window_S (window times : list double) i :
  length window = maxFrameSamples →
  frame_window (window ++ times) (S i) = frame_window times i.
Proof.
  intros Hlen. unfold frame_window.
  replace (maxFrameSamples * S i)%nat
    with (maxFrameSamples + maxFrameSamples * i)%nat by lia.
  by rewrite drop_app_add' by done.
Qed.

Lemma Draw_frames_steps times frameTimes reports :
  (length frameTimes < maxFrameSamples)%nat →
  ∃ q r,
    (length frameTimes + length times = maxFrameSamples * q + r)%nat ∧
    (r < maxFrameSamples)%nat ∧
    foldl (λ '(frameTimes, reports) elapsed,
             let '(frameTimes, report) := Draw_frameTimes elapsed frameTimes in
             (frameTimes, reports ++ option_list report))
          (frameTimes, reports) times
    = (drop (maxFrameSamples * q) (frameTimes ++ times),
       reports ++ ((λ i, average_report (frame_window (frameTimes ++ times) i)) <$> seq 0 q)).
Proof.
  revert frameTimes reports.
  induction times as [|elapsed times IH]; intros frameTimes reports Hlen.
  - exists 0%nat, (length frameTimes). cbn [foldl length seq fmap list_fmap].
    rewrite Nat.mul_0_r, !app_nil_r, drop_0. repeat split; [lia|done].
  - cbn [foldl].
    destruct (decide (S (length frameTimes) = maxFrameSamples)) as [Hfull|Hshort].
    + rewrite (Draw_frameTimes_full elapsed frameTimes Hfull).
      destruct (IH [] (reports ++ option_list (Some (average_report (frameTimes ++ [elapsed])))))
        as (q & r & Hqr & Hr & ->).
      { unfold maxFrameSamples. cbn [length]. lia. }
      exists (S q), r. cbn [length] in *. split; [lia|]. split; [done|].
      assert (length (frameTimes ++ [elapsed]) = maxFrameSamples) as Hwin
        by (rewrite length_app; cbn [length]; lia).
      rewrite (cons_middle elapsed frameTimes times),
        (app_assoc frameTimes [elapsed] times).
      f_equal.
      * replace (maxFrameSamples * S q)%nat
          with (maxFrameSamples + maxFrameSamples * q)%nat by lia.
        symmetry. by apply drop_app_add'.
      * rewrite <- app_assoc. f_equal. cbn [option_list app seq fmap list_fmap].
        rewrite (frame_window_0 _ _ Hwin). f_equal.
        rewrite <- fmap_S_seq, <- list_fmap_compose.
        apply list_fmap_ext. intros _ i _. unfold compose.
        by rewrite (frame_window_S _ _ _ Hwin).
    + rewrite Draw_frameTimes_short by lia.
      destruct (IH (frameTimes ++ [elapsed]) (reports ++ option_list None))
        as (q & r & Hqr & Hr & ->).
      { rewrite length_app. cbn [length]. lia. }
      exists q, r. rewrite length_app in Hqr. cbn [length] in *.
      split; [lia|]. split; [done|].
      cbn [option_list]. by rewrite app_nil_r, <- !app_assoc.
Qed.

(** X15. Starting from the empty [frameTimes], after any number of
    frames [Draw] has printed one report for each full run of 1000 frames,
    the [i]-th being the average of the frame times 1000 i to 1000 i + 999
    and its inverse, and [frameTimes] holds the times of the frames since
    the last report, fewer than 1000: the vector never grows beyond that. *)
Theorem Draw_frames_from_empty times :
  Draw_frames times []
  = (drop (maxFrameSamples * (length times / maxFrameSamples)) times,
     (λ i, average_report (frame_window times i))
       <$> seq 0 (length times / maxFrameSamples)) ∧
  length (Draw_frames times []).1 = (length times `mod` maxFrameSamples)%nat.
Proof.
  unfold Draw_frames.
  destruct (Draw_frames_steps times [] []) as (q & r & Hqr & Hr & ->).
  { unfold maxFrameSamples. cbn [length]. lia. }
  cbn [length app fst] in *.
  assert (q = (length times / maxFrameSamples)%nat) as <-
    by (by apply (Nat.div_unique _ maxFrameSamples q r)).
  split; [done|].
  assert (r = (length times `mod` maxFrameSamples)%nat) as <-
    by (by apply (Nat.mod_unique _ maxFrameSamples q r)).
  rewrite length_drop. lia.
Qed.

End FrameTimesTheory.

(** * Properties of the key handling *)

Section InputTheory.
Context `{FO : FloatOps, TL : TextureLib, FL : ForsythLib}.
Import Main.

Lemma Globals_eta g :
  {| keyFlags := keyFlags g; filepath := filepath g; world := world g |} = g.
Proof. by destruct g. Qed.

Lemma set_get_KeyPressed1 f : set_KeyPressed1 (KeyPressed1 f) f = f.
Proof. by destruct f. Qed.
Lemma set_get_KeyPressed2 f : set_KeyPressed2 (KeyPressed2 f) f = f.
Proof. by destruct f. Qed.
Lemma set_get_KeyPressed3 f : set_KeyPressed3 (KeyPressed3 f) f = f.
Proof. by destruct f. Qed.
Lemma set_get_KeyPressed7 f : set_KeyPressed7 (KeyPressed7 f) f = f.
Proof. by destruct f. Qed.
Lemma set_get_KeyPressed8 f : set_KeyPressed8 (KeyPressed8 f) f = f.
Proof. by destruct f. Qed.
Lemma set_get_KeyPressed9 f : set_KeyPressed9 (KeyPressed9 f) f = f.
Proof. by destruct f. Qed.
Lemma set_get_KeyPressed0 f : set_KeyPressed0 (KeyPressed0 f) f = f.
Proof. by destruct f. Qed.

Section Block.
Variables (get : KeyFlags → bool) (set : bool → KeyFlags → KeyFlags).
Hypothesis set_get : ∀ f, set (get f) f = f.

Lemma mode_key_Ret pressed label mode draw g g' :
  mode_key pressed get set label mode draw g = Ret g' →
  keyFlags g' = set pressed (keyFlags g).
Proof.
  unfold mode_key. destruct pressed, (get (keyFlags g)) eqn:Hget; cbn [andb negb].
  - intros [= <-]. by rewrite <- Hget, set_get.
  - destruct (setCacheMode _ _ _); [|done..]. by intros [= <-].
  - by intros [= <-].
  - by intros [= <-].
Qed.

Lemma load_key_Ret pressed label path fs g g' :
  load_key pressed get set label path fs g = Ret g' →
  keyFlags g' = set pressed (keyFlags g).
Proof.
  unfold load_key. destruct pressed, (get (keyFlags g)) eqn:Hget; cbn [andb negb].
  - intros [= <-]. by rewrite <- Hget, set_get.
  - destruct (loadModelFromFile _ _ _); [|done..]. by intros [= <-].
  - by intros [= <-].
  - by intros [= <-].
Qed.

Lemma mode_key_held pressed label mode draw g :
  get (keyFlags g) = pressed →
  mode_key pressed get set label mode draw g = Ret g.
Proof.
  intros <-. unfold mode_key. destruct (get (keyFlags g)) eqn:Hget; cbn [andb negb]; [done|].
  by rewrite <- Hget, set_get, Globals_eta.
Qed.

Lemma load_key_held pressed label path fs g :
  get (keyFlags g) = pressed →
  load_key pressed get set label path fs g = Ret g.
Proof.
  intros <-. unfold load_key. destruct (get (keyFlags g)) eqn:Hget; cbn [andb negb]; [done|].
  by rewrite <- Hget, set_get, Globals_eta.
Qed.

Lemma mode_key_fresh_throws label mode draw g :
  get (keyFlags g) = false →
  same_lengths (objModel (world g)) →
  (length (indices (objModel (world g))) < 20)%nat →
  ∃ g', mode_key true get set label mode draw g = Throw out_of_range g'.
Proof.
  intros Hget Hsame Hlen. unfold mode_key. rewrite Hget. cbn [andb negb].
  destruct (setCacheMode_Throw mode draw (print_cout [OStr label; OEndl] (world g)))
    as (w' & -> & _); [|eauto].
  by rewrite switched_length.
Qed.

Lemma mode_key_not_fresh pressed label mode draw g :
  pressed && negb (get (keyFlags g)) = false →
  ∃ g', mode_key pressed get set label mode draw g = Ret g' ∧
        world g' = world g ∧
        (keyFlags g' = keyFlags g ∨ keyFlags g' = set false (keyFlags g)).
Proof.
  intros Hnot. unfold mode_key. rewrite Hnot.
  destruct (negb pressed); eexists; (split; [done|]); cbn; eauto.
Qed.

End Block.

(** X16. The keys 1, 2, 3, 7, 8, 9 and 0 act once per press: after a
    frame of [Input] that ran to its end, each flag [KeyPressedK] equals
    the state of its key in that frame, and a further frame with the same
    keys held changes nothing: no mode is set and no file is loaded again,
    whatever the disk and the generator. *)
Theorem Input_keys_held_key fs draw state g g' :
  Input_keys fs draw state g = Ret g' →
  keyFlags g' = flags_of state ∧
  ∀ fs' draw', Input_keys fs' draw' state g' = Ret g'.
Proof.
  unfold Input_keys. intros Hframe.
  destruct (mode_key (SCANCODE_1 state) _ _ _ _ _ g) as [g1| |] eqn:B1; [|done..].
  cbn [and_then] in Hframe.
  destruct (mode_key (SCANCODE_2 state) _ _ _ _ _ g1) as [g2| |] eqn:B2; [|done..].
  cbn [and_then] in Hframe.
  destruct (mode_key (SCANCODE_3 state) _ _ _ _ _ g2) as [g3| |] eqn:B3; [|done..].
  cbn [and_then] in Hframe.
  destruct (load_key (SCANCODE_7 state) _ _ _ _ _ g3) as [g4| |] eqn:B4; [|done..].
  cbn [and_then] in Hframe.
  destruct (load_key (SCANCODE_8 state) _ _ _ _ _ g4) as [g5| |] eqn:B5; [|done..].
  cbn [and_then] in Hframe.
  destruct (load_key (SCANCODE_9 state) _ _ _ _ _ g5) as [g6| |] eqn:B6; [|done..].
  cbn [and_then] in Hframe.
  apply (mode_key_Ret _ _ set_get_KeyPressed1) in B1.
  apply (mode_key_Ret _ _ set_get_KeyPressed2) in B2.
  apply (mode_key_Ret _ _ set_get_KeyPressed3) in B3.
  apply (load_key_Ret _ _ set_get_KeyPressed7) in B4.
  apply (load_key_Ret _ _ set_get_KeyPressed8) in B5.
  apply (load_key_Ret _ _ set_get_KeyPressed9) in B6.
  apply (load_key_Ret _ _ set_get_KeyPressed0) in Hframe.
  assert (keyFlags g' = flags_of state) as Hflags.
  { rewrite Hframe, B6, B5, B4, B3, B2, B1. by destruct state. }
  split; [done|]. intros fs' draw'.
  rewrite (mode_key_held _ _ set_get_KeyPressed1) by (by rewrite Hflags).
  cbn [and_then].
  rewrite (mode_key_held _ _ set_get_KeyPressed2) by (by rewrite Hflags).
  cbn [and_then].
  rewrite (mode_key_held _ _ set_get_KeyPressed3) by (by rewrite Hflags).
  cbn [and_then].
  rewrite (load_key_held _ _ set_get_KeyPressed7) by (by rewrite Hflags).
  cbn [and_then].
  rewrite (load_key_held _ _ set_get_KeyPressed8) by (by rewrite Hflags).
  cbn [and_then].
  rewrite (load_key_held _ _ set_get_KeyPressed9) by (by rewrite Hflags).
  cbn [and_then].
  by rewrite (load_key_held _ _ set_get_KeyPressed0) by (by rewrite Hflags).
Qed.

(** X17. Pressing 1, 2 or 3 while the object holds fewer than twenty
    indices (as before any model is loaded) ends the frame with the
    [std::out_of_range] of [setCacheMode]; [Input] has no handler for it,
    so the exception leaves [Input]. *)
Theorem Input_keys_short_buffer_throws fs draw state g :
  same_lengths (objModel (world g)) →
  (length (indices (objModel (world g))) < 20)%nat →
  SCANCODE_1 state && negb (KeyPressed1 (keyFlags g))
  || SCANCODE_2 state && negb (KeyPressed2 (keyFlags g))
  || SCANCODE_3 state && negb (KeyPressed3 (keyFlags g)) = true →
  ∃ g', Input_keys fs draw state g = Throw out_of_range g'.
Proof.
  intros Hsame Hlen Hfresh. unfold Input_keys.
  destruct (SCANCODE_1 state && negb (KeyPressed1 (keyFlags g))) eqn:F1.
  { apply andb_prop in F1 as [-> Hf%negb_true_iff].
    destruct (mode_key_fresh_throws KeyPressed1 set_KeyPressed1
                "Original indices!" 1 draw g Hf Hsame Hlen) as [g' ->]. eauto. }
  destruct (mode_key_not_fresh KeyPressed1 set_KeyPressed1 (SCANCODE_1 state)
              "Original indices!" 1 draw g F1) as (g1 & -> & Hw1 & Hf1).
  cbn [and_then orb] in *.
  assert (KeyPressed2 (keyFlags g1) = KeyPressed2 (keyFlags g) ∧
          KeyPressed3 (keyFlags g1) = KeyPressed3 (keyFlags g)) as [E2 E3]
    by (by destruct Hf1 as [->| ->]).
  rewrite <- E2, <- E3, <- Hw1 in *. clear E2 E3 Hw1 Hf1 F1.
  destruct (SCANCODE_2 state && negb (KeyPressed2 (keyFlags g1))) eqn:F2.
  { apply andb_prop in F2 as [-> Hf%negb_true_iff].
    destruct (mode_key_fresh_throws KeyPressed2 set_KeyPressed2
                "Optimized indices!" 2 draw g1 Hf Hsame Hlen) as [g' ->]. eauto. }
  destruct (mode_key_not_fresh KeyPressed2 set_KeyPressed2 (SCANCODE_2 state)
              "Optimized indices!" 2 draw g1 F2) as (g2 & -> & Hw2 & Hf2).
  cbn [and_then orb] in *.
  assert (KeyPressed3 (keyFlags g2) = KeyPressed3 (keyFlags g1)) as E3
    by (by destruct Hf2 as [->| ->]).
  rewrite <- E3, <- Hw2 in *.
  apply andb_prop in Hfresh as [-> Hf%negb_true_iff].
  destruct (mode_key_fresh_throws KeyPressed3 set_KeyPressed3
              "Randomized indices!" 3 draw g2 Hf Hsame Hlen) as [g' ->]. eauto.
Qed.

End InputTheory.

(** * Instances of the further properties *)

Section MoreInstances.
Import Sample.
#[local] Existing Instances Zfloat path_textures keep_order_lib loaded_images.

Lemma setCacheMode_after mode draw w :
  state_after (setCacheMode mode draw w) = Some (after (setCacheMode mode draw w) w).
Proof.
  destruct (setCacheMode_objModel mode draw w) as (w1 & Hs & _).
  unfold after. by rewrite Hs.
Qed.

Lemma loaded_world_gl_buffers :
  gl_buffers (objModel loaded_world)
  = Some (vertices (objModel loaded_world), indices (objModel loaded_world)).
Proof. vm_compute. reflexivity. Qed.

Lemma face_mesh_parsed :
  parse_face "1/1/1" "2/2/2" "3/3/3" temps3 (objModel world0) = Ok face_mesh.
Proof. vm_compute. reflexivity. Qed.

Lemma reachable_sizes_witness :
  length (indices (objModel loaded_world)) = length (vertices (objModel loaded_world)) ∧
  length (oriIndices (objModel loaded_world)) = length (vertices (objModel loaded_world)) ∧
  length (optiIndices (objModel loaded_world)) = length (vertices (objModel loaded_world)) ∧
  (vertices_per_face | length (vertices (objModel loaded_world)))%nat.
Proof. exact (reachable_sizes loaded_world reachable_loaded_world). Defined.

Lemma reachable_optiIndices_zero_witness :
  optiIndices (objModel loaded_world)
  = replicate (length (indices (objModel loaded_world))) 0 ∧
  indices (objModel (after (setCacheMode 2 draw0 loaded_world) loaded_world))
  = replicate (length (indices (objModel loaded_world))) 0.
Proof.
  destruct (reachable_optiIndices_zero loaded_world reachable_loaded_world) as [Hz Hmode].
  exact (conj Hz (Hmode draw0 _ (setCacheMode_after 2 draw0 loaded_world))).
Defined.

Lemma reachable_gl_buffers_witness :
  gl_buffers (objModel loaded_world)
  = Some (vertices (objModel loaded_world), indices (objModel loaded_world)) ∧
  draw_counts (render (objModel loaded_world))
  = [to_int (Z.of_nat (length (indices (objModel loaded_world))))].
Proof.
  destruct (reachable_gl_buffers loaded_world _ _ reachable_loaded_world
              loaded_world_gl_buffers) as (_ & _ & Hdraw & _).
  exact (conj loaded_world_gl_buffers Hdraw).
Defined.

Lemma setCacheMode_frame_witness :
  vertices (objModel shuffled_world) = vertices (objModel loaded_world) ∧
  oriIndices (objModel shuffled_world) = oriIndices (objModel loaded_world) ∧
  optiIndices (objModel shuffled_world) = optiIndices (objModel loaded_world) ∧
  material (objModel shuffled_world) = material (objModel loaded_world) ∧
  gl_buffers (objModel shuffled_world) = gl_buffers (objModel loaded_world) ∧
  cerr shuffled_world = cerr loaded_world.
Proof.
  destruct (setCacheMode_frame 3 draw0 loaded_world shuffled_world
              (setCacheMode_after 3 draw0 loaded_world))
    as (Hv & Ho & Hp & Hm & Hg & Hc & _).
  exact (conj Hv (conj Ho (conj Hp (conj Hm (conj Hg Hc))))).
Defined.

Lemma setCacheMode_3_permutes_witness :
  indices (objModel shuffled_world) ≡ₚ indices (objModel loaded_world).
Proof.
  exact (setCacheMode_3_permutes draw0 loaded_world shuffled_world
           (setCacheMode_after 3 draw0 loaded_world)).
Defined.

Lemma loadModelFromFile_completes_iff_witness :
  (∃ w', loadModelFromFile disk "triangle.obj" world0 = Ret w') ∧
  (∃ u, loadModelFromFile disk "dangling.obj" world0 = Undef u).
Proof.
  exact (conj
           (proj1 (loadModelFromFile_completes_iff disk "triangle.obj" triangle_lines
                     world0 eq_refl))
           (proj1 (loadModelFromFile_completes_iff disk "dangling.obj" dangling_lines
                     world0 eq_refl))).
Defined.

Lemma parse_face_selects_witness :
  ∃ r0 r1 r2 v0 v1 v2,
    sscanf_ddd "1/1/1" = Ok (full_corner r0) ∧
    sscanf_ddd "2/2/2" = Ok (full_corner r1) ∧
    sscanf_ddd "3/3/3" = Ok (full_corner r2) ∧
    selects temps3 r0 v0 ∧ selects temps3 r1 v1 ∧ selects temps3 r2 v2 ∧
    vertices face_mesh
    = vertices (objModel world0) ++ [v0; v1; v2] ++ replicas 3 [v0; v1; v2].
Proof.
  exact (parse_face_selects "1/1/1" "2/2/2" "3/3/3" temps3 (objModel world0) face_mesh
           face_mesh_parsed).
Defined.

Lemma inert_lines_do_not_matter_witness :
  loadModelFromFile (single_file "tree.obj" triangle_lines) "tree.obj" world0
  = loadModelFromFile (single_file "tree.obj" annotated_lines) "tree.obj" world0.
Proof.
  exact (inert_lines_do_not_matter (single_file "tree.obj" annotated_lines)
           (single_file "tree.obj" triangle_lines) "tree.obj" annotated_lines world0
           eq_refl eq_refl (λ _, eq_refl)).
Defined.

Lemma missing_materials_are_not_fatal_witness :
  ∃ w', loadModelFromFile (single_file "models/tree.obj" triangle_with_mtllib)
          "models/tree.obj" world0 = Ret w' ∧
        material (objModel w') = material (objModel world0) ∧
        cerr w' = cerr world0
                  ++ [OStr "Could not open MTL file at "; OStr "models/tree.mtl"; OEndl].
Proof.
  exact (missing_materials_are_not_fatal
           (single_file "models/tree.obj" triangle_with_mtllib) "models/tree.obj"
           triangle_with_mtllib world0 (λ _, eq_refl) eq_refl eq_refl).
Defined.

Lemma directory_of_last_separator_witness :
  directory_of "./../common/objects/chapel/chapel_obj.obj" = "./../common/objects/chapel/" ∧
  directory_of "chapel_obj.obj" = EmptyString.
Proof.
  exact (directory_of_last_separator "./../common/objects/chapel" "/"%char
           "chapel_obj.obj" eq_refl eq_refl).
Defined.

Lemma sscanf_reads_decimals_witness :
  sscanf_ddd "12/345/6789" = Ok (Some 12, Some 345, Some 6789).
Proof.
  apply (sscanf_reads_decimals 12 345 6789); by vm_compute.
Defined.

Lemma face_without_texture_coordinate_witness :
  sscanf_ddd "1//1" = Ok (Some 1, None, None) ∧
  parse_face "1//1" "2//2" "3//3" temps3 (objModel world0) = Ub IndeterminateRead.
Proof.
  apply (face_without_texture_coordinate 1 "1" "2//2" "3//3"
           (Some 2, None, None) (Some 3, None, None) temps3 (objModel world0));
    try reflexivity; [by vm_compute|].
  unfold ref_out_of_range. vm_compute. lia.
Defined.

Lemma Input_keys_held_key_witness :
  Main.keyFlags globals_after_key7 = Main.flags_of key7 ∧
  Main.Input_keys disk draw0 key7 globals_after_key7 = Ret globals_after_key7.
Proof.
  destruct (Input_keys_held_key disk draw0 key7 globals0 globals_after_key7 eq_refl)
    as [Hflags Hagain].
  exact (conj Hflags (Hagain disk draw0)).
Defined.

Lemma Input_keys_short_buffer_throws_witness :
  ∃ g', Main.Input_keys disk draw0 key2 globals0 = Throw out_of_range g'.
Proof.
  exact (Input_keys_short_buffer_throws disk draw0 key2 globals0
           (conj eq_refl eq_refl) (Nat.lt_0_succ 19) eq_refl).
Defined.

Lemma loaded_world_Ret :
  loadModelFromFile disk "triangle.obj" world0 = Ret loaded_world.
Proof.
  destruct (loadModelFromFile_returns disk "triangle.obj" triangle_lines
              world0 eq_refl triangle_lines_faces_ok) as [w Hw].
  unfold loaded_world, after. by rewrite Hw.
Qed.

Lemma mode_switches_shuffled_world : mode_switches loaded_world shuffled_world.
Proof.
  apply (switches_mode loaded_world 3 draw0 loaded_world _ _
           (switches_none loaded_world) eq_refl).
  apply setCacheMode_after.
Qed.

Lemma single_load_restores_parse_order_witness :
  ∃ w3 w1,
    state_after (setCacheMode 3 draw0 shuffled_world) = Some w3 ∧
    state_after (setCacheMode 1 draw0 w3) = Some w1 ∧
    indices (objModel w1) = parse_order (length (vertices (objModel w1))).
Proof.
  destruct (single_load_restores_parse_order disk "triangle.obj" triangle_lines
              (material (objModel world0)) (cout world0) (cerr world0)
              loaded_world shuffled_world
              draw0 draw0 eq_refl loaded_world_Ret mode_switches_shuffled_world)
    as (w3 & w1 & Hs3 & Hs1 & _ & Hpo & _).
  exists w3, w1. exact (conj Hs3 (conj Hs1 Hpo)).
Defined.

End MoreInstances.
